(** * dataiter.write: the streaming writers

    A shallow embedding of [src/dataiter/write.pyx] and the properties its
    specification states about it.

    - Python strings are [string]; indices returned by [str.rfind] are [Z]
      (with [-1] for "not found").
    - Exceptions are values of [exn]; a computation returns a [result]
      together with the state it leaves behind, since in Python the effects
      performed before a [raise] stay in place.
    - Generators are finite resumption trees [gen]: what a generator does
      between two [yield]s is a list of actions on the caller's heap.
    - Stream objects live in a store addressed by reference, so that "the
      same handle" is the same reference. *)

From Stdlib Require Import ZArith String Ascii.
From stdpp Require Import gmap strings list.

(** ** Python string primitives used by [os.path.splitext] *)

Module PyStr.

(** [rfind_from c s i acc]: index of the last occurrence of [c] in [s],
    counting the first character of [s] as index [i]; [acc] when there is
    none. *)
Fixpoint rfind_from (c : ascii) (s : string) (i acc : Z) : Z :=
  match s with
  | EmptyString => acc
  | String a s' => rfind_from c s' (i + 1) (if Ascii.eqb a c then i else acc)
  end.

(** [s.rfind(c)] for a one-character [c]. *)
Definition rfind (c : ascii) (s : string) : Z := rfind_from c s 0 (-1).

(** [s[:n]] and [s[n:]] for [0 <= n]. *)
Fixpoint take (n : nat) (s : string) : string :=
  match n, s with
  | S k, String a s' => String a (take k s')
  | _, _ => EmptyString
  end.

Fixpoint drop (n : nat) (s : string) : string :=
  match n, s with
  | S k, String _ s' => drop k s'
  | _, _ => s
  end.

(** [s[i:i+1]]: the empty string when [i] is out of range. *)
Definition slice1 (i : nat) (s : string) : string := take 1 (drop i s).

(** [s.lstrip(c)]. *)
Fixpoint lstrip (c : ascii) (s : string) : string :=
  match s with
  | String a s' => if Ascii.eqb a c then lstrip c s' else s
  | EmptyString => EmptyString
  end.

(** [c in s] for a one-character [c]. *)
Fixpoint contains (c : ascii) (s : string) : bool :=
  match s with
  | EmptyString => false
  | String a s' => Ascii.eqb a c || contains c s'
  end.

(** Truth value of a string: only the empty string is falsy. *)
Definition truthy (s : string) : bool :=
  match s with EmptyString => false | _ => true end.

End PyStr.

(** ** [os.path.splitext] (posixpath: [sep = "/"], no [altsep], [extsep = "."]) *)

Module OsPath.
Import PyStr.

Definition sep : ascii := "/"%char.
Definition extsep : ascii := "."%char.

(** The [while filenameIndex < dotIndex] loop of [genericpath._splitext]:
    [steps] is [dotIndex - filenameIndex]. The first character of the file
    name that is not a dot makes the split happen at [dotIndex]; a name made
    of dots only has no extension. *)
Fixpoint skip_leading_dots (p : string) (filenameIndex steps dotIndex : nat)
  : string * string :=
  match steps with
  | O => (p, EmptyString)
  | S k =>
      if negb (String.eqb (slice1 filenameIndex p) (String extsep EmptyString))
      then (take dotIndex p, drop dotIndex p)
      else skip_leading_dots p (S filenameIndex) k dotIndex
  end.

Definition splitext (p : string) : string * string :=
  let sepIndex := rfind sep p in
  let dotIndex := rfind extsep p in
  if (sepIndex <? dotIndex)%Z then
    let filenameIndex := (sepIndex + 1)%Z in
    skip_leading_dots p (Z.to_nat filenameIndex)
      (Z.to_nat (dotIndex - filenameIndex)) (Z.to_nat dotIndex)
  else (p, EmptyString).

End OsPath.

(** ** Exceptions and results *)

Inductive exn : Type :=
| KeyError (key : option string)       (* a dict lookup that misses *)
| FileExistsError (path : string)      (* mode 'x' on an existing file *)
| TypeError (what : string)            (* a non bytes-like object written to a binary stream *)
| ValueError (what : string)           (* I/O operation on a closed file *)
| UpstreamError (what : string).       (* anything a caller's generator raises *)

Inductive result (A : Type) : Type :=
| Ok (a : A)
| Raise (e : exn).
Arguments Ok {A} a.
Arguments Raise {A} e.

(** A computation over a state [S]: the state is returned on both outcomes. *)
Definition M (S A : Type) : Type := S → result A * S.

Definition raise {S A} (e : exn) : M S A := λ s, (Raise e, s).

#[global] Instance M_ret {S} : MRet (M S) := λ A a s, (Ok a, s).
#[global] Instance M_bind {S} : MBind (M S) := λ A B k m s,
  match m s with
  | (Ok a, s') => k a s'
  | (Raise e, s') => (Raise e, s')
  end.

(** ** Chunks *)

(** One unit of payload. [isinstance(data, np.ndarray)] holds of [NdArray]
    only; [NdArray] and [Bytes] are bytes-like, [PyObject] stands for every
    other Python object a sequence may carry. *)
Inductive chunk : Type :=
| NdArray (dtype : string) (raw : list Byte.byte)
| Bytes (raw : list Byte.byte)
| PyObject (repr : string).

Definition isinstance_ndarray (data : chunk) : bool :=
  match data with NdArray _ _ => true | _ => false end.

Definition bytes_like (data : chunk) : bool :=
  match data with PyObject _ => false | _ => true end.

(** ** Generators *)

(** A generator over a heap [H] yielding [A]s, as the finite tree of what it
    does when pulled: run an action on the heap, yield a value and wait for
    the next pull, raise, or finish. *)
Inductive gen (H A : Type) : Type :=
| GStop
| GRaise (e : exn)
| GYield (a : A) (rest : gen H A)
| GAct (f : H → H) (rest : gen H A).
Arguments GStop {H A}.
Arguments GRaise {H A} e.
Arguments GYield {H A} a rest.
Arguments GAct {H A} f rest.

Section Generators.
Context {H A : Type}.

(** The values a generator yields when it is run to its end. *)
Fixpoint items (g : gen H A) : list A :=
  match g with
  | GStop | GRaise _ => []
  | GYield a rest => a :: items rest
  | GAct _ rest => items rest
  end.

(** The exception a generator ends with, if any. *)
Fixpoint failure (g : gen H A) : option exn :=
  match g with
  | GStop => None
  | GRaise e => Some e
  | GYield _ rest | GAct _ rest => failure rest
  end.

(** All the actions of a generator, in order. *)
Fixpoint effects (g : gen H A) (h : H) : H :=
  match g with
  | GStop | GRaise _ => h
  | GYield _ rest => effects rest h
  | GAct f rest => effects rest (f h)
  end.

(** [next(g)]: one pull. *)
Inductive pulled_item : Type :=
| Yielded (a : A) (rest : gen H A)
| StopIteration
| Raised (e : exn).

Fixpoint next (g : gen H A) (h : H) : pulled_item * H :=
  match g with
  | GStop => (StopIteration, h)
  | GRaise e => (Raised e, h)
  | GYield a rest => (Yielded a rest, h)
  | GAct f rest => next rest (f h)
  end.

(** A consumer that pulls at most [n] values and then abandons the
    generator: the values it saw and the generator it left suspended. *)
Fixpoint pull (n : nat) (g : gen H A) (h : H) : list A * gen H A * H :=
  match n with
  | O => ([], g, h)
  | S k =>
      match next g h with
      | (Yielded a rest, h') =>
          let '(l, g', h'') := pull k rest h' in (a :: l, g', h'')
      | (StopIteration, h') => ([], GStop, h')
      | (Raised e, h') => ([], GRaise e, h')
      end
  end.

(** [list(g)]. *)
Fixpoint collect (g : gen H A) : M H (list A) :=
  match g with
  | GStop => mret []
  | GRaise e => raise e
  | GYield a rest => l ← collect rest; mret (a :: l)
  | GAct f rest => λ h, collect rest (f h)
  end.

(** [iter(xs)] for a list: a generator without actions. *)
Fixpoint of_list (xs : list A) : gen H A :=
  match xs with
  | [] => GStop
  | x :: xs' => GYield x (of_list xs')
  end.

End Generators.

(** [for x in g: body(x)] where the loop body acts on a state [W] that
    contains the generator's heap at [get]/[set]. *)
Section ForLoop.
Context {H W A : Type} (get : W → H) (set : H → W → W).

Fixpoint for_each (g : gen H A) (body : A → M W unit) : M W unit :=
  match g with
  | GStop => mret tt
  | GRaise e => raise e
  | GYield a rest => body a;; for_each rest body
  | GAct f rest => λ w, for_each rest body (set (f (get w)) w)
  end.
End ForLoop.

(** ** The caller's heap *)

(** What the caller owns and a generator may touch: the digest objects passed
    to [iter_hash], addressed by reference, and a counter that an
    instrumented source bumps each time a chunk is pulled from it. *)
Record heap (D : Type) : Type := Heap {
  pulled : nat;
  hashes : list D;
}.
Arguments Heap {D} pulled hashes.
Arguments pulled {D} h.
Arguments hashes {D} h.

Section Sources.
Context {D : Type}.

Definition tick (h : heap D) : heap D :=
  {| pulled := S (pulled h); hashes := hashes h |}.

(** A source that counts the chunks pulled from it. *)
Fixpoint counting_source (cs : list chunk) : gen (heap D) chunk :=
  match cs with
  | [] => GStop
  | c :: cs' => GAct tick (GYield c (counting_source cs'))
  end.

(** A source that fails after having produced [cs]. *)
Fixpoint failing_source (cs : list chunk) (e : exn) : gen (heap D) chunk :=
  match cs with
  | [] => GRaise e
  | c :: cs' => GAct tick (GYield c (failing_source cs' e))
  end.
End Sources.

(** ** [iter_hash] *)

Section IterHash.
Context {D : Type} (absorb : D → chunk → D).

(** [hash.update(data)] on the digest object at reference [hash]. *)
Definition hash_update (hash : nat) (data : chunk) (h : heap D) : heap D :=
  {| pulled := pulled h; hashes := alter (λ d, absorb d data) hash (hashes h) |}.

(** [for data in data_iter: hash.update(data); yield data]. Pulling from
    [iter_hash] pulls from [data_iter]; what [data_iter] does before its
    yield happens first, then the update, then the yield. *)
Fixpoint iter_hash (data_iter : gen (heap D) chunk) (hash : nat)
  : gen (heap D) chunk :=
  match data_iter with
  | GStop => GStop
  | GRaise e => GRaise e
  | GAct f rest => GAct f (iter_hash rest hash)
  | GYield data rest =>
      GAct (hash_update hash data) (GYield data (iter_hash rest hash))
  end.

(** A source whose own actions leave the digest objects alone. *)
Fixpoint keeps_hashes (g : gen (heap D) chunk) : Prop :=
  match g with
  | GStop | GRaise _ => True
  | GYield _ rest => keeps_hashes rest
  | GAct f rest => (∀ h, hashes (f h) = hashes h) ∧ keeps_hashes rest
  end.

(** [hash.update(c)] for each [c] of [cs] in turn, without a generator. *)
Definition absorb_all (hash : nat) (cs : list chunk) (h : heap D) : heap D :=
  fold_left (λ h' data, hash_update hash data h') cs h.

End IterHash.

(** ** Streams and the file system *)

(** The class of a stream object. [open(path, 'xb')] returns an
    [io.BufferedWriter]; the compressing file classes ([gzip.GzipFile] and
    the like) and the caller's own file-like objects are not instances of
    it. *)
Inductive stream_class : Type :=
| BufferedWriter
| CodecFile (codec : string)
| FileLike (name : string).

Definition isinstance_BufferedWriter (cls : stream_class) : bool :=
  match cls with BufferedWriter => true | _ => false end.

(** The calls a stream has carried out. *)
Inductive call : Type :=
| CallWrite (data : chunk)       (* fileobj.write(data) *)
| CallTofile (data : chunk)      (* data.tofile(fileobj) *)
| CallFlush                      (* fileobj.flush() *)
| CallClose.                     (* fileobj.close() *)

Definition payload (c : call) : option chunk :=
  match c with
  | CallWrite data | CallTofile data => Some data
  | CallFlush | CallClose => None
  end.

Record stream : Type := Stream {
  s_class : stream_class;
  s_calls : list call;
  s_closed : bool;
}.

(** ['wb'], ['ab'] and ['xb']. *)
Inductive open_mode : Type := ModeW | ModeA | ModeX.

(** The state a write call runs in: the caller's heap, the store of stream
    objects, and the directory: the stream that holds the data of each
    existing path. Stream objects are never reclaimed: what the interpreter
    does to a stream when its last reference goes (CPython closes it) is not
    part of the state. *)
Record world (D : Type) : Type := World {
  user : heap D;
  streams : list stream;
  disk : gmap string nat;
}.
Arguments World {D} user streams disk.
Arguments user {D} w.
Arguments streams {D} w.
Arguments disk {D} w.

Section Streams.
Context {D : Type}.

Definition set_user (h : heap D) (w : world D) : world D :=
  {| user := h; streams := streams w; disk := disk w |}.

Definition append_calls (cs : list call) (s : stream) : stream :=
  {| s_class := s_class s; s_calls := s_calls s ++ cs; s_closed := s_closed s |}.

Definition log_call (fileobj : nat) (c : call) (w : world D) : world D :=
  {| user := user w;
     streams := alter (append_calls [c]) fileobj (streams w);
     disk := disk w |}.

(** A method call on the stream at [fileobj]: refused on a closed stream
    and, for a payload, on an object that is not bytes-like. *)
Definition stream_call (fileobj : nat) (c : call) : M (world D) unit := λ w,
  match streams w !! fileobj with
  | None => (Raise (ValueError "not a stream"), w)
  | Some s =>
      if s_closed s then (Raise (ValueError "I/O operation on closed file"), w)
      else match payload c with
           | Some data =>
               if bytes_like data then (Ok tt, log_call fileobj c w)
               else (Raise (TypeError "a bytes-like object is required"), w)
           | None => (Ok tt, log_call fileobj c w)
           end
  end.

Definition stream_write (fileobj : nat) (data : chunk) : M (world D) unit :=
  stream_call fileobj (CallWrite data).

(** [data.tofile(fileobj)], recorded as the one call the writer makes. What
    numpy does to the file object inside that call (it flushes it before it
    writes through the descriptor) is not recorded. *)
Definition ndarray_tofile (data : chunk) (fileobj : nat) : M (world D) unit :=
  stream_call fileobj (CallTofile data).

Definition stream_flush (fileobj : nat) : M (world D) unit :=
  stream_call fileobj CallFlush.

Definition stream_close (fileobj : nat) : M (world D) unit := λ w,
  match stream_call fileobj CallClose w with
  | (Ok _, w') =>
      (Ok tt, {| user := user w';
                 streams := alter (λ s, {| s_class := s_class s;
                                           s_calls := s_calls s;
                                           s_closed := true |}) fileobj (streams w');
                 disk := disk w' |})
  | r => r
  end.

(** A new stream object for [path]; the directory entry of [path] now
    names it. *)
Definition create (cls : stream_class) (path : string) (data : list call)
  : M (world D) nat := λ w,
  let fileobj := length (streams w) in
  (Ok fileobj,
   {| user := user w;
      streams := streams w ++ [{| s_class := cls; s_calls := data; s_closed := false |}];
      disk := <[path := fileobj]> (disk w) |}).

(** Modelled from the spec: the file classes that [COMPRESSION_CLASSES] holds
    are not part of the sources. [cls(path, mode)] is the specification's
    "open_stream(path, codec_name) -> writable_stream", and for its mode
    "exclusive-create, binary, write-only" "the target must not already
    exist"; the modes are those of Python's [open], which [gzip.GzipFile],
    [bz2.BZ2File] and [lzma.LZMAFile] share: ['xb'] refuses an existing path,
    ['wb'] starts it over, ['ab'] continues after what it holds. *)
Definition open_stream (cls : stream_class) (path : string) (mode : open_mode)
  : M (world D) nat := λ w,
  match disk w !! path, mode with
  | None, _ => create cls path [] w
  | Some _, ModeX => (Raise (FileExistsError path), w)
  | Some _, ModeW => create cls path [] w
  | Some old, ModeA =>
      create cls path (default [] (s_calls <$> streams w !! old)) w
  end.

(** The stream [open_writable_file] creates for a file class. *)
Definition fresh_stream (cls : stream_class) (calls : list call) : stream :=
  {| s_class := cls; s_calls := calls; s_closed := false |}.

(** The call [write_data] ends in, for a stream that is ([bw]) or is not a
    [BufferedWriter]. *)
Definition sink_call (bw : bool) (data : chunk) : call :=
  if isinstance_ndarray data && bw then CallTofile data else CallWrite data.

(** The payloads a stream has received, in the order of the calls. *)
Definition received (fileobj : nat) (w : world D) : list chunk :=
  omap payload (default [] (s_calls <$> streams w !! fileobj)).

End Streams.

(** ** The collaborators *)

(** What [write.pyx] imports from [dataiter.compression]: the table from a
    codec name (or [None]) to the file class that opens a stream for it, the
    default codec, the table whose keys are the extensions
    [decompressed_filepath] removes, and the lazy compressing transform. *)
Record compression_module (D : Type) : Type := {
  COMPRESSION_CLASSES : gmap (option string) stream_class;
  DEFAULT_COMPRESSION : option string;
  FILE_CLASSES : gset string;
  iter_compress : gen (heap D) chunk → string → gen (heap D) chunk;
}.
Arguments COMPRESSION_CLASSES {D} c.
Arguments DEFAULT_COMPRESSION {D} c.
Arguments FILE_CLASSES {D} c.
Arguments iter_compress {D} c data_iter compression.

(** What it uses of [dataiter.iterate]: the normalizer and the coercion to
    an element type ([None]: no specific type). *)
Record iterate_module (D : Type) : Type := {
  iter_data : gen (heap D) chunk → gen (heap D) chunk;
  iter_as_dtype : gen (heap D) chunk → option string → gen (heap D) chunk;
}.
Arguments iter_data {D} i data_iter.
Arguments iter_as_dtype {D} i data_iter dtype.

(** ** The writers *)

(** A destination, and what [file_writer] returns: a [str] or a file-like
    object. *)
Inductive filelike : Type :=
| Path (filepath : string)
| Handle (fileobj : nat).

(** [if compression:] *)
Definition selected (compression : option string) : option string :=
  match compression with
  | Some c => if PyStr.truthy c then Some c else None
  | None => None
  end.

Section Writers.
Context {D : Type} (cm : compression_module D) (it : iterate_module D).

Definition open_writable_file (filepath : string) (compression : option string)
  : M (world D) (string * nat) :=
  let filepath :=
    match selected compression with
    | Some c => filepath +:+ "." +:+ c
    | None => filepath
    end in
  match COMPRESSION_CLASSES cm !! compression with
  | None => raise (KeyError compression)
  | Some cls =>
      fileobj ← open_stream cls filepath ModeX;
      mret (filepath, fileobj)
  end.

Definition decompressed_filepath (filepath : string) : string :=
  let '(name, ext) := OsPath.splitext filepath in
  if bool_decide (PyStr.lstrip "." ext ∈ FILE_CLASSES cm) then name else filepath.

Definition isinstance_stream (fileobj : nat) (test : stream_class → bool)
    (w : world D) : bool :=
  match streams w !! fileobj with
  | Some s => test (s_class s)
  | None => false
  end.

Definition write_data (fileobj : nat) (data : chunk) : M (world D) unit := λ w,
  if isinstance_ndarray data && isinstance_stream fileobj isinstance_BufferedWriter w
  then ndarray_tofile data fileobj w
  else stream_write fileobj data w.

Definition memory_writer (data_iter : gen (heap D) chunk) : M (heap D) (list chunk) :=
  collect (iter_data it data_iter).

Definition file_writer (dest : filelike) (data_iter : gen (heap D) chunk)
    (compression : option string) : M (world D) filelike :=
  match dest with
  | Path requested =>
      let filepath := decompressed_filepath requested in
      '(filepath, fileobj) ← open_writable_file filepath compression;
      for_each user set_user (iter_data it data_iter) (write_data fileobj);;
      mret (Path filepath)
  | Handle fileobj =>
      let data_iter := iter_as_dtype it (iter_data it data_iter) None in
      let data_iter :=
        match selected compression with
        | Some c => iter_compress cm data_iter c
        | None => data_iter
        end in
      for_each user set_user data_iter (stream_write fileobj);;
      mret (Handle fileobj)
  end.

(** [file_writer(filelike, data_iter)]: the codec argument left to its
    default. *)
Definition file_writer_default (dest : filelike) (data_iter : gen (heap D) chunk)
  : M (world D) filelike :=
  file_writer dest data_iter (DEFAULT_COMPRESSION cm).

(** The sequence the handle branch writes: normalized, coerced to no
    specific element type, and compressed when a codec is selected. *)
Definition handle_pipeline (data_iter : gen (heap D) chunk)
    (compression : option string) : gen (heap D) chunk :=
  let data_iter := iter_as_dtype it (iter_data it data_iter) None in
  match selected compression with
  | Some c => iter_compress cm data_iter c
  | None => data_iter
  end.

(** The name of the file a path destination is written to. *)
Definition final_path (requested : string) (compression : option string) : string :=
  match selected compression with
  | Some c => decompressed_filepath requested +:+ "." +:+ c
  | None => decompressed_filepath requested
  end.

End Writers.

(** ** What the specification says of the collaborators *)

(** Modelled from the spec: [iter_data] is defined in [dataiter.iterate],
    which is not part of the sources. The specification has it "preserve
    whatever typed/generic form chunks already have", and has a sequence of
    numeric-array chunks come back from memory as "the identical sequence of
    arrays (values and order)": on a sequence of arrays the normalizer is the
    sequence itself. *)
Definition passes_arrays_through {D : Type} (it : iterate_module D) : Prop :=
  ∀ g : gen (heap D) chunk,
    Forall (λ data, isinstance_ndarray data = true) (items g) →
    iter_data it g = g.

(** ** Reference collaborators *)

Module Reference.

(** A lazy element-wise transform: each pull pulls one element. *)
Fixpoint gen_map {H A B : Type} (f : A → B) (g : gen H A) : gen H B :=
  match g with
  | GStop => GStop
  | GRaise e => GRaise e
  | GYield a rest => GYield (f a) (gen_map f rest)
  | GAct act rest => GAct act (gen_map f rest)
  end.

(** A digest: a running checksum over the absorbed bytes. *)
Definition checksum : Type := N.

Definition chunk_bytes (data : chunk) : list Byte.byte :=
  match data with
  | NdArray _ raw | Bytes raw => raw
  | PyObject _ => []
  end.

Definition absorb (d : checksum) (data : chunk) : checksum :=
  fold_left (λ acc b, (acc * 31 + Byte.to_N b) mod 65521)%N (chunk_bytes data) d.

(** The generic representation of a chunk: its bytes, without a dtype. *)
Definition generic (data : chunk) : chunk :=
  match data with
  | NdArray _ raw => Bytes raw
  | other => other
  end.

Definition astype (dtype : string) (data : chunk) : chunk :=
  match data with
  | NdArray _ raw => NdArray dtype raw
  | other => other
  end.

(** Modelled from the spec: [dataiter.iterate] is not part of the sources.
    [iter_data] is the normalizer "normalize(chunk_sequence) ->
    chunk_sequence (pass-through dtype)", which preserves "whatever
    typed/generic form chunks already have"; [iter_as_dtype] is
    "coerce(chunk_sequence, target_representation_or_none)", which "forces
    generic representation" for the "no specific type" sentinel. Both are
    lazy. *)
Definition iterate : iterate_module checksum := {|
  iter_data := λ data_iter, data_iter;
  iter_as_dtype := λ data_iter dtype,
    match dtype with
    | None => gen_map generic data_iter
    | Some t => gen_map (astype t) data_iter
    end;
|}.

Definition classes : gmap (option string) stream_class :=
  {[ None := BufferedWriter;
     Some "bz2" := CodecFile "bz2";
     Some "gz" := CodecFile "gz";
     Some "xz" := CodecFile "xz" ]}.

(** A stand-in for a codec's output on one chunk. *)
Definition encode (codec : string) (data : chunk) : chunk :=
  Bytes (Byte.x1f :: chunk_bytes data).

(** Modelled from the spec: [dataiter.compression] is not part of the
    sources. The registry holds "a fixed enumerable set of recognized codec
    names plus a configured default" and a set of extension names "used
    for extension-stripping"; [iter_compress] is "compress(
    byte_chunk_sequence, codec_name) -> byte_chunk_sequence (lazy)", a
    "streaming (chunk-by-chunk) transform", and "an unrecognized codec name
    is a fatal configuration error, surfaced before any stream is opened or
    any chunk is consumed". *)
Definition compression : compression_module checksum := {|
  COMPRESSION_CLASSES := classes;
  DEFAULT_COMPRESSION := Some "bz2";
  FILE_CLASSES := {[ "csv"; "bz2"; "gz"; "xz" ]};
  iter_compress := λ data_iter codec,
    match classes !! Some codec with
    | Some _ => gen_map (encode codec) data_iter
    | None => GRaise (KeyError (Some codec))
    end;
|}.

(** An empty directory, one caller-owned in-memory stream at reference 0,
    one digest object at reference 0. *)
Definition w0 : world checksum :=
  {| user := {| pulled := 0; hashes := [1%N] |};
     streams := [ {| s_class := FileLike "BytesIO"; s_calls := []; s_closed := false |} ];
     disk := ∅ |}.

Definition c1 : chunk := NdArray "f8" [Byte.x01; Byte.x02].
Definition c2 : chunk := Bytes [Byte.x03].
Definition c3 : chunk := NdArray "i4" [Byte.x04].

End Reference.

(** * Properties *)

(** ** Paths *)

Example splitext_csv : OsPath.splitext "out.csv" = ("out", ".csv").
Proof. reflexivity. Qed.

Example splitext_hidden : OsPath.splitext "dir.d/.bashrc" = ("dir.d/.bashrc", "").
Proof. reflexivity. Qed.

Example splitext_two : OsPath.splitext "a/b.tar.gz" = ("a/b.tar", ".gz").
Proof. reflexivity. Qed.

Section SplitextFacts.
Import PyStr OsPath.

Lemma string_app_cons (a : ascii) (s1 s2 : string) :
  String a s1 +:+ s2 = String a (s1 +:+ s2).
Proof. reflexivity. Qed.

Lemma string_app_nil (s : string) : "" +:+ s = s.
Proof. reflexivity. Qed.

Lemma string_app_assoc (s1 s2 s3 : string) :
  (s1 +:+ s2) +:+ s3 = s1 +:+ (s2 +:+ s3).
Proof.
  induction s1 as [|a s1 IH]; [done|].
  by rewrite !string_app_cons, IH.
Qed.

Lemma string_app_length (s1 s2 : string) :
  String.length (s1 +:+ s2) = (String.length s1 + String.length s2).
Proof.
  induction s1 as [|a s1 IH]; [done|].
  rewrite string_app_cons; simpl. by rewrite IH.
Qed.

Lemma rfind_from_app c (s1 s2 : string) (i acc : Z) :
  rfind_from c (s1 +:+ s2) i acc =
  rfind_from c s2 (i + Z.of_nat (String.length s1)) (rfind_from c s1 i acc).
Proof.
  revert i acc; induction s1 as [|a s1 IH]; intros i acc.
  - rewrite string_app_nil; simpl. f_equal. lia.
  - rewrite string_app_cons; simpl. rewrite IH. f_equal. lia.
Qed.

Lemma rfind_from_absent c (s : string) (i acc : Z) :
  contains c s = false → rfind_from c s i acc = acc.
Proof.
  revert i acc; induction s as [|a s IH]; intros i acc Habs; simpl in *; [done|].
  apply orb_false_iff in Habs as [-> Hs]. by apply IH.
Qed.

Lemma rfind_from_range c (s : string) (i acc : Z) :
  (acc < i)%Z →
  (acc ≤ rfind_from c s i acc < i + Z.of_nat (String.length s))%Z.
Proof.
  revert i acc; induction s as [|a s IH]; intros i acc Hacc; simpl; [lia|].
  destruct (Ascii.eqb a c).
  - specialize (IH (i + 1)%Z i). lia.
  - specialize (IH (i + 1)%Z acc). lia.
Qed.

Lemma take_app_length (s1 s2 : string) :
  PyStr.take (String.length s1) (s1 +:+ s2) = s1.
Proof.
  induction s1 as [|a s1 IH]; [by destruct s2|].
  rewrite string_app_cons; simpl. by rewrite IH.
Qed.

Lemma drop_app_length (s1 s2 : string) :
  PyStr.drop (String.length s1) (s1 +:+ s2) = s2.
Proof.
  induction s1 as [|a s1 IH]; [by destruct s2|].
  by rewrite string_app_cons.
Qed.

(** The loop stops at the first character of the file name that is not a
    dot. *)
Lemma skip_leading_dots_found (p : string) (dotIndex i : nat) :
  slice1 i p ≠ String extsep EmptyString →
  ∀ steps filenameIndex : nat,
    (filenameIndex ≤ i < filenameIndex + steps) →
    skip_leading_dots p filenameIndex steps dotIndex =
    (PyStr.take dotIndex p, PyStr.drop dotIndex p).
Proof.
  intros Hi. induction steps as [|steps IH]; intros f Hf; simpl; [lia|].
  destruct (String.eqb_spec (slice1 f p) (String extsep EmptyString)) as [Heq|Hne];
    simpl; [|done].
  apply IH. destruct (decide (f = i)) as [->|]; [done|lia].
Qed.

(** A path whose last component has a character [a] that is neither a dot
    nor a separator, followed by a dot and an extension without dots or
    separators, splits at that dot. *)
Lemma splitext_append_ext (dir rest ext : string) (a : ascii) :
  a ≠ extsep → a ≠ sep →
  contains sep rest = false →
  contains extsep ext = false →
  contains sep ext = false →
  splitext ((dir +:+ String a rest) +:+ "." +:+ ext) =
  (dir +:+ String a rest, "." +:+ ext).
Proof.
  intros Hdot Hsep Hrest Hext Hext'.
  set (base := dir +:+ String a rest).
  assert (Hlen : String.length base = (String.length dir + S (String.length rest))).
  { unfold base. by rewrite string_app_length. }
  assert (HsepIndex : rfind sep (base +:+ "." +:+ ext) = rfind sep dir).
  { unfold rfind, base. rewrite !rfind_from_app; simpl.
    rewrite (proj2 (Ascii.eqb_neq _ _) Hsep).
    rewrite (rfind_from_absent sep rest) by done.
    by rewrite (rfind_from_absent sep ext). }
  assert (HdotIndex : rfind extsep (base +:+ "." +:+ ext) = Z.of_nat (String.length base)).
  { unfold rfind. rewrite rfind_from_app, (rfind_from_app _ "."); simpl.
    rewrite (rfind_from_absent extsep ext) by done. lia. }
  pose proof (rfind_from_range sep dir 0 (-1) ltac:(lia)) as Hrange.
  fold (rfind sep dir) in Hrange.
  unfold splitext. rewrite HsepIndex, HdotIndex.
  destruct (Z.ltb_spec (rfind sep dir) (Z.of_nat (String.length base))); [|lia].
  rewrite Nat2Z.id.
  rewrite (skip_leading_dots_found _ _ (String.length dir)).
  - by rewrite take_app_length, drop_app_length.
  - unfold slice1, base.
    rewrite string_app_assoc, drop_app_length, string_app_cons; simpl.
    intros [= ->]. done.
  - lia.
Qed.

Lemma lstrip_absent c (s : string) : contains c s = false → lstrip c s = s.
Proof.
  destruct s as [|a s]; simpl; [done|].
  intros Habs. by apply orb_false_iff in Habs as [-> _].
Qed.

End SplitextFacts.

(** ** Generators *)

Section GeneratorFacts.
Context {H A : Type}.

Lemma collect_run (g : gen H A) (h : H) :
  collect g h =
  (match failure g with None => Ok (items g) | Some e => Raise e end,
   effects g h).
Proof.
  revert h; induction g as [|e|a rest IH|f rest IH]; intros h; simpl.
  - done.
  - done.
  - unfold mbind, M_bind. rewrite IH. by destruct (failure rest).
  - apply IH.
Qed.

(** [list(g)] is [next] repeated until [StopIteration]. *)
Lemma collect_next (g : gen H A) (h : H) :
  collect g h =
  match next g h with
  | (Yielded a rest, h') => (l ← collect rest; mret (a :: l)) h'
  | (StopIteration, h') => (Ok [], h')
  | (Raised e, h') => (Raise e, h')
  end.
Proof. revert h; induction g as [|e|a rest IH|f rest IH]; intros h; simpl; done. Qed.

Lemma next_items (g : gen H A) (h : H) :
  items g =
  match next g h with
  | (Yielded a rest, _) => a :: items rest
  | _ => []
  end.
Proof. revert h; induction g as [|e|a rest IH|f rest IH]; intros h; simpl; done. Qed.

(** Pulling everything is collecting. *)
Lemma pull_all (g : gen H A) (h : H) :
  failure g = None →
  pull (S (length (items g))) g h = (items g, GStop, effects g h).
Proof.
  revert h; induction g as [|e|a rest IH|f rest IH]; intros h Hfail.
  - done.
  - done.
  - specialize (IH h Hfail). simpl in *. by rewrite IH.
  - specialize (IH (f h) Hfail). simpl in *.
    destruct (next rest (f h)) as [[a rest'| |e] h']; done.
Qed.

Lemma items_of_list (xs : list A) : items (of_list (H:=H) xs) = xs.
Proof. induction xs; simpl; congruence. Qed.

Lemma failure_of_list (xs : list A) : failure (of_list (H:=H) xs) = None.
Proof. induction xs; simpl; congruence. Qed.

End GeneratorFacts.

Section SourceFacts.
Context {D : Type}.

Lemma items_counting_source (cs : list chunk) :
  items (counting_source (D:=D) cs) = cs.
Proof. induction cs; simpl; congruence. Qed.

Lemma failure_counting_source (cs : list chunk) :
  failure (counting_source (D:=D) cs) = None.
Proof. induction cs; simpl; congruence. Qed.

Lemma effects_counting_source (cs : list chunk) (h : heap D) :
  effects (counting_source cs) h =
  {| pulled := pulled h + length cs; hashes := hashes h |}.
Proof.
  revert h; induction cs as [|c cs IH]; intros [n hs]; simpl.
  - f_equal; lia.
  - rewrite IH; simpl. f_equal; lia.
Qed.

End SourceFacts.

(** ** Streams *)

(** The three modes on an existing path: ['xb'] refuses it, ['wb'] starts it
    over, ['ab'] continues it. *)
Example modes_on_existing_path :
  let w1 := snd ((fileobj ← open_stream BufferedWriter "f" ModeX;
                  stream_write fileobj Reference.c2) Reference.w0) in
  fst (open_stream BufferedWriter "f" ModeX w1) = Raise (FileExistsError "f") ∧
  received 2 (snd (open_stream BufferedWriter "f" ModeW w1)) = [] ∧
  received 2 (snd (open_stream BufferedWriter "f" ModeA w1)) = [Reference.c2] ∧
  received 1 w1 = [Reference.c2].
Proof. vm_compute. done. Qed.

(** A closed stream refuses further calls. *)
Example write_after_close :
  (stream_close 0;; stream_write 0 Reference.c2) Reference.w0 =
  (Raise (ValueError "I/O operation on closed file"),
   snd (stream_close 0 Reference.w0)).
Proof. vm_compute. done. Qed.

Lemma omap_payload_write (l : list chunk) : omap payload (CallWrite <$> l) = l.
Proof. induction l as [|data l IH]; [done|]. simpl. by f_equal. Qed.

Lemma append_calls_nil (s : stream) : append_calls [] s = s.
Proof. destruct s; unfold append_calls; simpl. by rewrite app_nil_r. Qed.

Lemma append_calls_app (cs1 cs2 : list call) (s : stream) :
  append_calls cs2 (append_calls cs1 s) = append_calls (cs1 ++ cs2) s.
Proof. unfold append_calls; simpl. by rewrite app_assoc. Qed.

Section StreamFacts.
Context {D : Type}.
Implicit Types (w : world D) (c : call) (data : chunk).

(** A call either is carried out and recorded, or raises and leaves the
    state as it was. *)
Lemma stream_call_cases fileobj c w :
  stream_call fileobj c w = (Ok tt, log_call fileobj c w) ∨
  ∃ e, stream_call fileobj c w = (Raise e, w).
Proof.
  unfold stream_call.
  destruct (streams w !! fileobj) as [s|]; [|eauto].
  destruct (s_closed s); [eauto|].
  destruct (payload c) as [data|]; [|eauto].
  destruct (bytes_like data); eauto.
Qed.

Lemma stream_call_open fileobj c w s :
  streams w !! fileobj = Some s →
  s_closed s = false →
  (∀ data, payload c = Some data → bytes_like data = true) →
  stream_call fileobj c w = (Ok tt, log_call fileobj c w).
Proof.
  intros Hs Hopen Hdata. unfold stream_call. rewrite Hs, Hopen.
  destruct (payload c) as [data|]; [|done].
  by rewrite (Hdata data).
Qed.

Lemma payload_sink_call bw data : payload (sink_call bw data) = Some data.
Proof. unfold sink_call. by destruct (_ && _). Qed.

Lemma write_data_call fileobj data w :
  write_data fileobj data w =
  stream_call fileobj
    (sink_call (isinstance_stream fileobj isinstance_BufferedWriter w) data) w.
Proof.
  unfold write_data, sink_call, ndarray_tofile, stream_write.
  by destruct (_ && _).
Qed.

Lemma stream_write_call fileobj data w :
  stream_write fileobj data w = stream_call fileobj (sink_call false data) w.
Proof.
  unfold stream_write, sink_call. by rewrite andb_false_r.
Qed.

Lemma isinstance_stream_log_call fileobj test r c w :
  isinstance_stream fileobj test (log_call r c w) = isinstance_stream fileobj test w.
Proof.
  unfold isinstance_stream, log_call; simpl.
  destruct (decide (r = fileobj)) as [->|Hne].
  - rewrite list_lookup_alter_eq. by destruct (streams w !! fileobj).
  - by rewrite list_lookup_alter_ne.
Qed.

(** The [for] statement is the iterator protocol: pull with [next], run the
    body on what is yielded, stop at [StopIteration]. *)
Lemma for_each_next (g : gen (heap D) chunk) (body : chunk → M (world D) unit) w :
  for_each user set_user g body w =
  match next g (user w) with
  | (Yielded data rest, h') =>
      (body data;; for_each user set_user rest body) (set_user h' w)
  | (StopIteration, h') => (Ok tt, set_user h' w)
  | (Raised e, h') => (Raise e, set_user h' w)
  end.
Proof.
  revert w; induction g as [|e|a rest IH|f rest IH]; intros w; simpl.
  - by destruct w.
  - by destruct w.
  - by destruct w.
  - rewrite IH; simpl. by destruct (next rest (f (user w))) as [[]].
Qed.

(** What a [for] loop over a generator leaves behind when its body is one
    call on one stream per element: the calls for a prefix of the elements,
    in order, on that stream and nothing else; the whole of them when the
    loop ends normally. *)
Lemma for_each_calls fileobj (mk : chunk → call) (g : gen (heap D) chunk) :
  ∀ w res w',
    for_each user set_user g (λ data, stream_call fileobj (mk data)) w = (res, w') →
    ∃ k : nat, (k ≤ length (items g)) ∧
         streams w' = alter (append_calls (mk <$> take k (items g))) fileobj (streams w) ∧
         disk w' = disk w ∧
         (res = Ok tt →
          k = length (items g) ∧ failure g = None ∧ user w' = effects g (user w)) ∧
         (∀ e, res = Raise e → failure g = Some e ∨ (k < length (items g))).
Proof.
  induction g as [|e|a rest IH|f rest IH]; intros w res w' Hrun; simpl in *.
  - injection Hrun as <- <-. exists 0; simpl. split_and!; try done.
    by rewrite list_alter_id by apply append_calls_nil.
  - injection Hrun as <- <-. exists 0; simpl. split_and!; try done.
    + by rewrite list_alter_id by apply append_calls_nil.
    + intros e' [= ->]. by left.
  - unfold mbind, M_bind in Hrun.
    destruct (stream_call_cases fileobj (mk a) w) as [Hok|[e Herr]].
    + rewrite Hok in Hrun. apply IH in Hrun as (k & Hk & Hst & Hdisk & Hfin & Herr).
      exists (S k); simpl. split_and!; [lia| |done| |].
      * rewrite Hst. unfold log_call; simpl. rewrite list_alter_alter_eq.
        apply list_alter_ext; [|done]. intros s _; simpl.
        by rewrite append_calls_app.
      * intros Hres. destruct (Hfin Hres) as (Hlen & ? & ?).
        by rewrite Hlen.
      * intros e Hres. destruct (Herr e Hres); [by left|right; lia].
    + rewrite Herr in Hrun. injection Hrun as <- <-. exists 0; simpl.
      split_and!; [lia| |done|done|].
      * by rewrite list_alter_id by apply append_calls_nil.
      * intros ? _. right; lia.
  - apply IH in Hrun as (k & Hk & Hst & Hdisk & Hfin & Herr).
    exists k. split_and!; done.
Qed.

(** Why such a loop stops. When it ends normally every element has had its
    call and the generator has not failed. When it raises, either the
    generator raised, after all its elements had their call, or the call for
    the next element is what raised, and it raises again in the state the loop
    leaves: the loop adds no failure of its own, and skips nothing. *)
Lemma for_each_calls_exact fileobj (mk : chunk → call) (g : gen (heap D) chunk) :
  ∀ w res w',
    for_each user set_user g (λ data, stream_call fileobj (mk data)) w = (res, w') →
    ∃ k : nat,
      k ≤ length (items g) ∧
      streams w' = alter (append_calls (mk <$> take k (items g))) fileobj (streams w) ∧
      match res with
      | Ok _ => k = length (items g) ∧ failure g = None
      | Raise e =>
          (k = length (items g) ∧ failure g = Some e) ∨
          (∃ data, items g !! k = Some data ∧
                   stream_call fileobj (mk data) w' = (Raise e, w'))
      end.
Proof.
  induction g as [|e|a rest IH|f rest IH]; intros w res w' Hrun; simpl in *.
  - injection Hrun as <- <-. exists 0; simpl. split_and!; try done.
    by rewrite list_alter_id by apply append_calls_nil.
  - injection Hrun as <- <-. exists 0; simpl. split_and!; [done| |by left].
    by rewrite list_alter_id by apply append_calls_nil.
  - unfold mbind, M_bind in Hrun.
    destruct (stream_call_cases fileobj (mk a) w) as [Hok|[e Herr]].
    + rewrite Hok in Hrun. apply IH in Hrun as (k & Hk & Hst & Hcause).
      exists (S k); simpl. split_and!; [lia| |].
      * rewrite Hst. unfold log_call; simpl. rewrite list_alter_alter_eq.
        apply list_alter_ext; [|done]. intros s _; simpl.
        by rewrite append_calls_app.
      * destruct res as [[]|e].
        -- destruct Hcause as [-> ?]. done.
        -- destruct Hcause as [[-> ?]|(data & ? & ?)]; [by left|right; eauto].
    + rewrite Herr in Hrun. injection Hrun as <- <-. exists 0; simpl.
      split_and!; [lia| |].
      * by rewrite list_alter_id by apply append_calls_nil.
      * right. eauto.
  - apply IH in Hrun as (k & Hk & Hst & Hcause).
    exists k. split_and!; done.
Qed.

(** The loop of the path branch is such a loop: the class of the stream,
    which decides between the two calls, does not change under writes. *)
Lemma for_each_write_data fileobj (g : gen (heap D) chunk) w :
  for_each user set_user g (write_data fileobj) w =
  for_each user set_user g
    (λ data, stream_call fileobj
               (sink_call (isinstance_stream fileobj isinstance_BufferedWriter w) data)) w.
Proof.
  set (bw := isinstance_stream fileobj isinstance_BufferedWriter w).
  assert (Hbw : isinstance_stream fileobj isinstance_BufferedWriter w = bw) by done.
  clearbody bw. revert w Hbw.
  induction g as [|e|a rest IH|f rest IH]; intros w Hbw; simpl.
  - done.
  - done.
  - unfold mbind, M_bind. rewrite write_data_call, Hbw.
    destruct (stream_call_cases fileobj (sink_call bw a) w) as [->|[e ->]]; [|done].
    apply IH. by rewrite isinstance_stream_log_call.
  - apply IH. done.
Qed.

Lemma for_each_stream_write fileobj (g : gen (heap D) chunk) w :
  for_each user set_user g (stream_write fileobj) w =
  for_each user set_user g (λ data, stream_call fileobj (CallWrite data)) w.
Proof. done. Qed.

End StreamFacts.

(** ** The path branch *)

Section PathBranch.
Context {D : Type} (cm : compression_module D) (it : iterate_module D).
Implicit Types (w : world D) (g : gen (heap D) chunk) (c : option string).

Lemma open_writable_file_final filepath c w cls :
  COMPRESSION_CLASSES cm !! c = Some cls →
  open_writable_file cm (decompressed_filepath cm filepath) c w =
  match disk w !! final_path cm filepath c with
  | None =>
      (Ok (final_path cm filepath c, length (streams w)),
       {| user := user w;
          streams := streams w ++ [fresh_stream cls []];
          disk := <[final_path cm filepath c := length (streams w)]> (disk w) |})
  | Some _ => (Raise (FileExistsError (final_path cm filepath c)), w)
  end.
Proof.
  intros Hcls. unfold open_writable_file, final_path.
  rewrite Hcls. unfold mbind, M_bind, open_stream.
  destruct (selected c) as [name|];
    (match goal with |- context [disk w !! ?p] => destruct (disk w !! p) end);
    done.
Qed.

(** An unknown codec: nothing happens but the [KeyError]. *)
Lemma file_writer_path_unknown requested g c w :
  COMPRESSION_CLASSES cm !! c = None →
  file_writer cm it (Path requested) g c w = (Raise (KeyError c), w).
Proof.
  intros Hnone. unfold file_writer, open_writable_file, mbind, M_bind.
  by rewrite Hnone.
Qed.

(** An existing target: nothing happens but the [FileExistsError]. *)
Lemma file_writer_path_exists requested g c w cls :
  COMPRESSION_CLASSES cm !! c = Some cls →
  is_Some (disk w !! final_path cm requested c) →
  file_writer cm it (Path requested) g c w =
  (Raise (FileExistsError (final_path cm requested c)), w).
Proof.
  intros Hcls [old Hold]. unfold file_writer.
  unfold mbind at 1, M_bind at 1.
  by rewrite (open_writable_file_final _ _ _ cls), Hold.
Qed.

(** A known codec and a new target: the file is created under its final
    name, and its stream receives one call per chunk of a prefix of the
    normalized sequence, all of it when the call returns. *)
Lemma file_writer_path_fresh requested g c w cls :
  COMPRESSION_CLASSES cm !! c = Some cls →
  disk w !! final_path cm requested c = None →
  ∃ res w' (k : nat),
    file_writer cm it (Path requested) g c w = (res, w') ∧
    (k ≤ length (items (iter_data it g))) ∧
    streams w' =
      (streams w ++
       [fresh_stream cls
          (sink_call (isinstance_BufferedWriter cls) <$> take k (items (iter_data it g)))]) ∧
    disk w' = <[final_path cm requested c := length (streams w)]> (disk w) ∧
    (∀ v, res = Ok v →
          v = Path (final_path cm requested c) ∧
          k = length (items (iter_data it g)) ∧
          failure (iter_data it g) = None ∧
          user w' = effects (iter_data it g) (user w)) ∧
    (∀ e, res = Raise e →
          failure (iter_data it g) = Some e ∨ (k < length (items (iter_data it g)))).
Proof.
  intros Hcls Hnew. unfold file_writer.
  unfold mbind at 1, M_bind at 1.
  rewrite (open_writable_file_final _ _ _ cls), Hnew by done.
  set (w1 := {| user := user w; streams := streams w ++ [fresh_stream cls []];
                disk := <[final_path cm requested c := length (streams w)]> (disk w) |}).
  unfold mbind, M_bind.
  rewrite for_each_write_data.
  assert (Hbw : isinstance_stream (length (streams w)) isinstance_BufferedWriter w1
                = isinstance_BufferedWriter cls).
  { unfold isinstance_stream, w1; simpl. by rewrite list_lookup_middle. }
  rewrite Hbw.
  destruct (for_each user set_user (iter_data it g) _ w1) as [res w'] eqn:Hrun.
  apply for_each_calls in Hrun as (k & Hk & Hst & Hdisk & Hfin & Herr).
  assert (Hst' : streams w' = (streams w ++
    [fresh_stream cls (sink_call (isinstance_BufferedWriter cls) <$>
                         take k (items (iter_data it g)))])).
  { rewrite Hst. unfold w1; simpl.
    rewrite <- (Nat.add_0_r (length (streams w))), alter_app_r. done. }
  destruct res as [[]|e].
  - exists (Ok (Path (final_path cm requested c))), w', k.
    split_and!; try done.
    intros v [= <-]. destruct (Hfin eq_refl) as (? & ? & ?). done.
  - exists (Raise e), w', k. split_and!; try done.
    intros e' [= <-]. by apply Herr.
Qed.

End PathBranch.

(** ** The handle branch *)

Section HandleBranch.
Context {D : Type} (cm : compression_module D) (it : iterate_module D).
Implicit Types (w : world D) (g : gen (heap D) chunk) (c : option string).

(** A loop of calls over a generator that does not fail, on an open stream
    that accepts every element, ends normally. *)
Lemma for_each_calls_ok fileobj (mk : chunk → call) g :
  (∀ data, payload (mk data) = Some data) →
  failure g = None →
  Forall (λ data, bytes_like data = true) (items g) →
  ∀ w s,
    streams w !! fileobj = Some s →
    s_closed s = false →
    for_each user set_user g (λ data, stream_call fileobj (mk data)) w =
    (Ok tt,
     {| user := effects g (user w);
        streams := alter (append_calls (mk <$> items g)) fileobj (streams w);
        disk := disk w |}).
Proof.
  intros Hmk.
  induction g as [|e|a rest IH|f rest IH]; intros Hfail Hbytes w s Hs Hopen; simpl in *.
  - unfold mret, M_ret. f_equal. destruct w; simpl. f_equal.
    by rewrite list_alter_id by apply append_calls_nil.
  - done.
  - apply Forall_cons in Hbytes as [Ha Hrest].
    unfold mbind, M_bind.
    rewrite (stream_call_open _ _ _ s) by (try done; intros d; rewrite Hmk; congruence).
    rewrite (IH Hfail Hrest _ (append_calls [mk a] s)); simpl.
    + f_equal. f_equal. rewrite list_alter_alter_eq.
      apply list_alter_ext; [|done]. intros s' _; simpl.
      by rewrite append_calls_app.
    + by rewrite list_lookup_alter_eq, Hs.
    + done.
  - by rewrite (IH Hfail Hbytes _ s).
Qed.

(** Whatever the outcome, the handle has received a prefix of the sequence
    and nothing else has changed but the heap of the source. *)
Lemma file_writer_handle_run fileobj g c w :
  ∃ res w' (k : nat),
    file_writer cm it (Handle fileobj) g c w = (res, w') ∧
    (k ≤ length (items (handle_pipeline cm it g c))) ∧
    streams w' =
      alter (append_calls (CallWrite <$> take k (items (handle_pipeline cm it g c))))
        fileobj (streams w) ∧
    disk w' = disk w ∧
    (∀ v, res = Ok v →
          v = Handle fileobj ∧
          k = length (items (handle_pipeline cm it g c)) ∧
          failure (handle_pipeline cm it g c) = None ∧
          user w' = effects (handle_pipeline cm it g c) (user w)) ∧
    (∀ e, res = Raise e →
          failure (handle_pipeline cm it g c) = Some e ∨
          (k < length (items (handle_pipeline cm it g c)))).
Proof.
  unfold file_writer. fold (handle_pipeline cm it g c).
  unfold mbind, M_bind. rewrite for_each_stream_write.
  destruct (for_each user set_user _ _ w) as [res w'] eqn:Hrun.
  apply for_each_calls in Hrun as (k & Hk & Hst & Hdisk & Hfin & Herr).
  destruct res as [[]|e].
  - exists (Ok (Handle fileobj)), w', k. split_and!; try done.
    intros v [= <-]. destruct (Hfin eq_refl) as (? & ? & ?). done.
  - exists (Raise e), w', k. split_and!; try done.
    intros e' [= <-]. by apply Herr.
Qed.

Lemma file_writer_handle_ok fileobj g c w s :
  streams w !! fileobj = Some s →
  s_closed s = false →
  failure (handle_pipeline cm it g c) = None →
  Forall (λ data, bytes_like data = true) (items (handle_pipeline cm it g c)) →
  file_writer cm it (Handle fileobj) g c w =
  (Ok (Handle fileobj),
   {| user := effects (handle_pipeline cm it g c) (user w);
      streams := alter (append_calls (CallWrite <$> items (handle_pipeline cm it g c)))
                   fileobj (streams w);
      disk := disk w |}).
Proof.
  intros Hs Hopen Hfail Hbytes.
  unfold file_writer. fold (handle_pipeline cm it g c).
  unfold mbind, M_bind. rewrite for_each_stream_write.
  by rewrite (for_each_calls_ok _ CallWrite _ (λ _, eq_refl) Hfail Hbytes w s).
Qed.

(** Read back in order, the handle holds what it held followed by the
    sequence, chunk for chunk. *)
Lemma file_writer_handle_received fileobj g c w s :
  streams w !! fileobj = Some s →
  s_closed s = false →
  failure (handle_pipeline cm it g c) = None →
  Forall (λ data, bytes_like data = true) (items (handle_pipeline cm it g c)) →
  received fileobj (snd (file_writer cm it (Handle fileobj) g c w)) =
  (received fileobj w ++ items (handle_pipeline cm it g c)).
Proof.
  intros Hs Hopen Hfail Hbytes.
  rewrite (file_writer_handle_ok fileobj g c w s Hs Hopen Hfail Hbytes).
  unfold received; simpl. rewrite list_lookup_alter_eq, Hs; simpl.
  rewrite omap_app. f_equal.
  apply omap_payload_write.
Qed.

End HandleBranch.

(** * The claims *)

Section PathNaming.
Context {D : Type} (cm : compression_module D) (it : iterate_module D).

Lemma decompressed_filepath_known filepath name ext :
  OsPath.splitext filepath = (name, ext) →
  PyStr.lstrip "." ext ∈ FILE_CLASSES cm →
  decompressed_filepath cm filepath = name.
Proof.
  intros Hsplit Hext. unfold decompressed_filepath. rewrite Hsplit.
  by rewrite bool_decide_eq_true_2.
Qed.

Lemma decompressed_filepath_unknown filepath name ext :
  OsPath.splitext filepath = (name, ext) →
  PyStr.lstrip "." ext ∉ FILE_CLASSES cm →
  decompressed_filepath cm filepath = filepath.
Proof.
  intros Hsplit Hext. unfold decompressed_filepath. rewrite Hsplit.
  by rewrite bool_decide_eq_false_2.
Qed.

(** A path without an extension is left as it is, whatever the table
    holds. *)
Lemma decompressed_filepath_no_ext filepath :
  OsPath.splitext filepath = (filepath, "") →
  decompressed_filepath cm filepath = filepath.
Proof.
  intros Hsplit. unfold decompressed_filepath. rewrite Hsplit.
  by destruct (bool_decide _).
Qed.

(** X3. Naming a name again changes nothing: for a codec that is a key of
    [FILE_CLASSES] and a path whose last component has a character other than
    a dot, the final path of the final path is the final path. *)
Lemma final_path_idempotent requested codec dir rest (a : ascii) :
  PyStr.truthy codec = true →
  codec ∈ FILE_CLASSES cm →
  PyStr.contains OsPath.extsep codec = false →
  PyStr.contains OsPath.sep codec = false →
  decompressed_filepath cm requested = dir +:+ String a rest →
  a ≠ OsPath.extsep → a ≠ OsPath.sep →
  PyStr.contains OsPath.sep rest = false →
  final_path cm (final_path cm requested (Some codec)) (Some codec) =
  final_path cm requested (Some codec).
Proof.
  intros Htruthy Hkey Hdots Hseps Hbase Hdot Hsep Hrest.
  unfold final_path; simpl. rewrite Htruthy, Hbase.
  rewrite (decompressed_filepath_known _ (dir +:+ String a rest)
             ("." +:+ codec)); [done| |].
  - by apply splitext_append_ext.
  - rewrite string_app_cons, string_app_nil; simpl.
    by rewrite (lstrip_absent _ codec).
Qed.

(** A file name in which only dots come before the last dot (the empty name,
    a hidden file) has no extension for [os.path.splitext], so that naming it
    again adds the codec again. *)
Example final_path_of_empty_name :
  final_path Reference.compression "" (Some "gz") = ".gz" ∧
  final_path Reference.compression ".gz" (Some "gz") = ".gz.gz".
Proof. split; vm_compute; reflexivity. Qed.

(** What a path destination with a known codec and a new target leaves in
    the directory, and what it returns. *)
Lemma file_writer_path_target requested c cls g (w : world D) :
  COMPRESSION_CLASSES cm !! c = Some cls →
  disk w !! final_path cm requested c = None →
  ∃ res w',
    file_writer cm it (Path requested) g c w = (res, w') ∧
    disk w' = <[final_path cm requested c := length (streams w)]> (disk w) ∧
    (∀ v, res = Ok v → v = Path (final_path cm requested c)).
Proof.
  intros Hcls Hnew.
  destruct (file_writer_path_fresh cm it requested g c w cls Hcls Hnew)
    as (res & w' & k & Hrun & _ & _ & Hdisk & Hfin & _).
  exists res, w'. split_and!; [done|done|].
  intros v Hv. by destruct (Hfin v Hv).
Qed.

End PathNaming.

(** C1. A requested path whose extension, as [os.path.splitext] finds it, is
    a key of [FILE_CLASSES] is written under its name without that extension,
    followed by a dot and the codec when one is selected: the file created is
    that one, and it is the path returned. With ["csv"] in the table,
    ["out.csv"] and codec ["gz"] give ["out.gz"]. *)
Theorem known_extension_is_stripped {D : Type}
    (cm : compression_module D) (it : iterate_module D)
    (filepath name ext : string) (c : option string) (cls : stream_class)
    (g : gen (heap D) chunk) (w : world D) :
  OsPath.splitext filepath = (name, ext) →
  PyStr.lstrip "." ext ∈ FILE_CLASSES cm →
  COMPRESSION_CLASSES cm !! c = Some cls →
  let target := match selected c with
                | Some codec => name +:+ "." +:+ codec
                | None => name
                end in
  disk w !! target = None →
  ∃ res w',
    file_writer cm it (Path filepath) g c w = (res, w') ∧
    disk w' = <[target := length (streams w)]> (disk w) ∧
    (∀ v, res = Ok v → v = Path target).
Proof.
  intros Hsplit Hext Hcls target Hnew.
  assert (Hfinal : final_path cm filepath c = target).
  { unfold final_path, target.
    by rewrite (decompressed_filepath_known cm filepath name ext). }
  rewrite <- Hfinal in *.
  by apply (file_writer_path_target cm it filepath c cls).
Qed.

Lemma known_extension_is_stripped_witness :
  ∃ res w',
    file_writer Reference.compression Reference.iterate (Path "out.csv")
      (counting_source [Reference.c1; Reference.c2]) (Some "gz") Reference.w0 = (res, w') ∧
    disk w' = <["out.gz" := 1]> ∅ ∧
    (∀ v, res = Ok v → v = Path "out.gz").
Proof.
  apply (known_extension_is_stripped Reference.compression Reference.iterate
           "out.csv" "out" ".csv" (Some "gz") (CodecFile "gz")).
  - reflexivity.
  - vm_compute. reflexivity.
  - vm_compute. reflexivity.
  - vm_compute. reflexivity.
Defined.

(** C5. With ["gz"] a key of [FILE_CLASSES], the paths ["out"] and
    ["out.gz"] written with codec ["gz"] both give the file ["out.gz"]: the
    codec's extension is not doubled. *)
Theorem codec_extension_not_doubled {D : Type}
    (cm : compression_module D) (it : iterate_module D)
    (requested : string) (cls : stream_class)
    (g : gen (heap D) chunk) (w : world D) :
  "gz" ∈ FILE_CLASSES cm →
  COMPRESSION_CLASSES cm !! Some "gz" = Some cls →
  disk w !! "out.gz" = None →
  requested = "out" ∨ requested = "out.gz" →
  final_path cm requested (Some "gz") = "out.gz" ∧
  ∃ res w',
    file_writer cm it (Path requested) g (Some "gz") w = (res, w') ∧
    disk w' = <["out.gz" := length (streams w)]> (disk w) ∧
    (∀ v, res = Ok v → v = Path "out.gz").
Proof.
  intros Hgz Hcls Hnew Hreq.
  assert (Hfinal : final_path cm requested (Some "gz") = "out.gz").
  { unfold final_path; simpl. destruct Hreq as [-> | ->].
    - by rewrite decompressed_filepath_no_ext.
    - by rewrite (decompressed_filepath_known cm "out.gz" "out" ".gz"). }
  split; [done|].
  rewrite <- Hfinal in *.
  by apply (file_writer_path_target cm it requested (Some "gz") cls).
Qed.

Lemma codec_extension_not_doubled_witness :
  final_path Reference.compression "out.gz" (Some "gz") = "out.gz" ∧
  ∃ res w',
    file_writer Reference.compression Reference.iterate (Path "out.gz")
      (counting_source [Reference.c1]) (Some "gz") Reference.w0 = (res, w') ∧
    disk w' = <["out.gz" := 1]> ∅ ∧
    (∀ v, res = Ok v → v = Path "out.gz").
Proof.
  apply (codec_extension_not_doubled Reference.compression Reference.iterate
           "out.gz" (CodecFile "gz")).
  - vm_compute. reflexivity.
  - vm_compute. reflexivity.
  - vm_compute. reflexivity.
  - right. reflexivity.
Defined.

(** C2. A path destination is opened with mode ['xb']. Once a call has
    written a file and returned its path, any further call that resolves to
    the same path raises [FileExistsError] and changes nothing: the stream
    holding the data of the first call, like everything else, is as that call
    left it. *)
Theorem second_write_refused {D : Type}
    (cm : compression_module D) (it : iterate_module D)
    (requested requested' target : string) (c c' : option string)
    (g g' : gen (heap D) chunk) (w w1 : world D) :
  file_writer cm it (Path requested) g c w = (Ok (Path target), w1) →
  final_path cm requested' c' = target →
  is_Some (COMPRESSION_CLASSES cm !! c') →
  file_writer cm it (Path requested') g' c' w1 =
  (Raise (FileExistsError target), w1).
Proof.
  intros Hfirst Hsame [cls' Hcls'].
  assert (Hthere : is_Some (disk w1 !! target)).
  { destruct (COMPRESSION_CLASSES cm !! c) as [cls|] eqn:Hcls.
    - destruct (disk w !! final_path cm requested c) as [old|] eqn:Hold.
      + rewrite (file_writer_path_exists cm it requested g c w cls) in Hfirst
          by (try done; by rewrite Hold).
        done.
      + destruct (file_writer_path_fresh cm it requested g c w cls Hcls Hold)
          as (res & w' & k & Hrun & _ & _ & Hdisk & Hfin & _).
        rewrite Hfirst in Hrun. injection Hrun as <- <-.
        destruct (Hfin _ eq_refl) as ([= ->] & _).
        rewrite Hdisk, lookup_insert_eq. by eexists.
    - by rewrite file_writer_path_unknown in Hfirst. }
  subst target.
  by apply (file_writer_path_exists cm it requested' g' c' w1 cls').
Qed.

Lemma second_write_refused_witness :
  let w1 := snd (file_writer Reference.compression Reference.iterate (Path "out.csv")
                   (counting_source [Reference.c1; Reference.c2]) (Some "gz") Reference.w0) in
  file_writer Reference.compression Reference.iterate (Path "out.gz")
    (counting_source [Reference.c3]) (Some "gz") w1 =
  (Raise (FileExistsError "out.gz"), w1).
Proof.
  intros w1.
  apply (second_write_refused Reference.compression Reference.iterate
           "out.csv" "out.gz" "out.gz" (Some "gz") (Some "gz")
           (counting_source [Reference.c1; Reference.c2]) _ Reference.w0 w1).
  - vm_compute. reflexivity.
  - vm_compute. reflexivity.
  - exists (CodecFile "gz"). vm_compute. reflexivity.
Defined.



(** C6. [write_data] on a stream of the store ends in exactly one call on
    it, carrying the chunk as it is: [data.tofile(fileobj)] exactly when the
    chunk is an [ndarray] and the stream a [BufferedWriter],
    [fileobj.write(data)] in every other combination. *)
Theorem write_data_dispatch {D : Type}
    (fileobj : nat) (data : chunk) (w : world D) (s : stream) :
  streams w !! fileobj = Some s →
  ∃ call,
    write_data fileobj data w = stream_call fileobj call w ∧
    payload call = Some data ∧
    (call = CallTofile data ↔
       isinstance_ndarray data = true ∧ s_class s = BufferedWriter) ∧
    (call = CallWrite data ↔
       ¬ (isinstance_ndarray data = true ∧ s_class s = BufferedWriter)).
Proof.
  intros Hs. rewrite write_data_call.
  unfold isinstance_stream. rewrite Hs.
  eexists. split; [reflexivity|]. split; [apply payload_sink_call|].
  unfold sink_call.
  destruct (isinstance_ndarray data), (s_class s); simpl; split; intuition congruence.
Qed.

Lemma write_data_dispatch_witness :
  ∃ call,
    write_data 1 Reference.c1
      (snd (open_stream BufferedWriter "raw" ModeX Reference.w0)) =
    stream_call 1 call (snd (open_stream BufferedWriter "raw" ModeX Reference.w0)) ∧
    payload call = Some Reference.c1 ∧
    (call = CallTofile Reference.c1 ↔
       isinstance_ndarray Reference.c1 = true ∧ BufferedWriter = BufferedWriter) ∧
    (call = CallWrite Reference.c1 ↔
       ¬ (isinstance_ndarray Reference.c1 = true ∧ BufferedWriter = BufferedWriter)).
Proof.
  apply (write_data_dispatch 1 Reference.c1 _
           {| s_class := BufferedWriter; s_calls := []; s_closed := false |}).
  vm_compute. reflexivity.
Defined.

Lemma list_alter_lookup_insert {A : Type} (f : A → A) (l : list A) (i : nat) (x : A) :
  l !! i = Some x → alter f i l = <[i := f x]> l.
Proof.
  intros Hx. rewrite list_insert_alter.
  apply list_alter_ext; [|done]. intros y Hy. congruence.
Qed.

(** C3. On a handle destination whose stream is open and accepts the chunks,
    [file_writer] writes, one [write] call per chunk, the sequence obtained
    from the source by [iter_data], then [iter_as_dtype] with [None], then
    [iter_compress] exactly when [compression] is truthy; it runs the source
    to its end and returns the handle it was given. *)
Theorem handle_receives_pipeline {D : Type}
    (cm : compression_module D) (it : iterate_module D)
    (fileobj : nat) (g : gen (heap D) chunk) (c : option string)
    (w : world D) (s : stream) :
  let coerced := iter_as_dtype it (iter_data it g) None in
  let written := match selected c with
                 | Some codec => iter_compress cm coerced codec
                 | None => coerced
                 end in
  streams w !! fileobj = Some s →
  s_closed s = false →
  failure written = None →
  Forall (λ data, bytes_like data = true) (items written) →
  file_writer cm it (Handle fileobj) g c w =
  (Ok (Handle fileobj),
   {| user := effects written (user w);
      streams := <[fileobj := append_calls (CallWrite <$> items written) s]> (streams w);
      disk := disk w |}).
Proof.
  intros coerced written Hs Hopen Hfail Hbytes.
  rewrite (file_writer_handle_ok cm it fileobj g c w s Hs Hopen Hfail Hbytes).
  fold coerced. change (handle_pipeline cm it g c) with written.
  by rewrite (list_alter_lookup_insert _ _ _ s).
Qed.

Lemma handle_receives_pipeline_witness :
  file_writer Reference.compression Reference.iterate (Handle 0)
    (counting_source [Reference.c1; Reference.c2]) (Some "gz") Reference.w0 =
  (Ok (Handle 0),
   {| user := {| pulled := 2; hashes := [1%N] |};
      streams := [ {| s_class := FileLike "BytesIO";
                      s_calls := [CallWrite (Bytes [Byte.x1f; Byte.x01; Byte.x02]);
                                  CallWrite (Bytes [Byte.x1f; Byte.x03])];
                      s_closed := false |} ];
      disk := ∅ |}).
Proof.
  apply (handle_receives_pipeline Reference.compression Reference.iterate 0
           (counting_source [Reference.c1; Reference.c2]) (Some "gz") Reference.w0
           {| s_class := FileLike "BytesIO"; s_calls := []; s_closed := false |}).
  - reflexivity.
  - reflexivity.
  - vm_compute. reflexivity.
  - vm_compute. repeat constructor.
Defined.

(** C8. [file_writer] issues one call per chunk of the sequence its branch
    writes, in the order of that sequence, each with its chunk alone, and
    leaves none out. When it returns, the destination stream has carried out
    the calls for all the chunks and nothing else. When it raises, it is for
    one of these reasons only: the codec is not registered or the file class
    refused to open the path, and then nothing has happened; or the sequence
    itself raised, after the calls for all the chunks it had yielded; or the
    call for the next chunk raised, after the calls for all the chunks before
    it. *)
Theorem one_write_per_chunk {D : Type}
    (cm : compression_module D) (it : iterate_module D)
    (dest : filelike) (g : gen (heap D) chunk) (c : option string)
    (w w' : world D) (res : result filelike) :
  file_writer cm it dest g c w = (res, w') →
  match dest with
  | Handle fileobj =>
      let written := handle_pipeline cm it g c in
      let after (chunks : list chunk) :=
        alter (append_calls (CallWrite <$> chunks)) fileobj (streams w) in
      match res with
      | Ok v =>
          v = Handle fileobj ∧
          failure written = None ∧
          streams w' = after (items written)
      | Raise e =>
          ∃ k : nat,
            streams w' = after (take k (items written)) ∧
            ((k = length (items written) ∧ failure written = Some e) ∨
             (∃ data, items written !! k = Some data ∧
                      stream_write fileobj data w' = (Raise e, w')))
      end
  | Path requested =>
      let written := iter_data it g in
      let target := final_path cm requested c in
      let after (cls : stream_class) (chunks : list chunk) :=
        streams w ++
        [fresh_stream cls (sink_call (isinstance_BufferedWriter cls) <$> chunks)] in
      match res with
      | Ok v =>
          v = Path target ∧
          failure written = None ∧
          ∃ cls, COMPRESSION_CLASSES cm !! c = Some cls ∧
                 streams w' = after cls (items written)
      | Raise e =>
          (COMPRESSION_CLASSES cm !! c = None ∧ e = KeyError c ∧ w' = w) ∨
          (∃ cls, COMPRESSION_CLASSES cm !! c = Some cls ∧
                  open_stream cls target ModeX w = (Raise e, w) ∧ w' = w) ∨
          (∃ (cls : stream_class) (k : nat),
             COMPRESSION_CLASSES cm !! c = Some cls ∧
             streams w' = after cls (take k (items written)) ∧
             ((k = length (items written) ∧ failure written = Some e) ∨
              (∃ data, items written !! k = Some data ∧
                       write_data (length (streams w)) data w' = (Raise e, w'))))
      end
  end.
Proof.
  intros Hrun. destruct dest as [requested|fileobj]; simpl.
  - destruct (COMPRESSION_CLASSES cm !! c) as [cls|] eqn:Hcls.
    + destruct (disk w !! final_path cm requested c) as [old|] eqn:Hold.
      * rewrite (file_writer_path_exists cm it requested g c w cls) in Hrun
          by (try done; by rewrite Hold).
        injection Hrun as <- <-. right; left. exists cls. split_and!; [done| |done].
        unfold open_stream. by rewrite Hold.
      * unfold file_writer in Hrun. unfold mbind at 1, M_bind at 1 in Hrun.
        rewrite (open_writable_file_final cm _ _ _ cls), Hold in Hrun by done.
        unfold mbind, M_bind in Hrun. rewrite for_each_write_data in Hrun.
        unfold isinstance_stream at 1 in Hrun; simpl in Hrun.
        rewrite list_lookup_middle in Hrun by done. simpl in Hrun.
        destruct (for_each user set_user (iter_data it g) _ _) as [res0 w0] eqn:Hloop.
        apply for_each_calls_exact in Hloop as (k & Hk & Hst & Hcause).
        simpl in Hst.
        rewrite <- (Nat.add_0_r (length (streams w))), alter_app_r in Hst.
        simpl in Hst.
        destruct res0 as [[]|e]; injection Hrun as <- <-.
        -- destruct Hcause as [-> Hfail]. rewrite take_ge in Hst by done.
           split_and!; [done|done|]. by exists cls.
        -- right; right. exists cls, k. split_and!; [done|done|].
           destruct Hcause as [?|(data & Hdata & Hcall)]; [by left|right].
           exists data. split; [done|].
           rewrite write_data_call. unfold isinstance_stream.
           rewrite Hst, list_lookup_middle by done. done.
    + rewrite file_writer_path_unknown in Hrun by done.
      injection Hrun as <- <-. by left.
  - unfold file_writer in Hrun. fold (handle_pipeline cm it g c) in Hrun.
    unfold mbind, M_bind in Hrun. rewrite for_each_stream_write in Hrun.
    destruct (for_each user set_user _ _ w) as [res0 w0] eqn:Hloop.
    apply for_each_calls_exact in Hloop as (k & Hk & Hst & Hcause).
    destruct res0 as [[]|e]; injection Hrun as <- <-.
    + destruct Hcause as [-> Hfail]. by rewrite take_ge in Hst.
    + by exists k.
Qed.

Lemma one_write_per_chunk_witness :
  let run := file_writer Reference.compression Reference.iterate (Path "raw")
               (counting_source [Reference.c1; Reference.c2; Reference.c3]) None
               Reference.w0 in
  Path "raw" = Path "raw" ∧
  failure (counting_source (D:=Reference.checksum)
             [Reference.c1; Reference.c2; Reference.c3]) = None ∧
  ∃ cls, COMPRESSION_CLASSES Reference.compression !! None = Some cls ∧
         streams (snd run) =
         streams Reference.w0 ++
         [fresh_stream cls
            (sink_call (isinstance_BufferedWriter cls) <$>
               [Reference.c1; Reference.c2; Reference.c3])].
Proof.
  intros run.
  apply (one_write_per_chunk Reference.compression Reference.iterate (Path "raw")
           (counting_source [Reference.c1; Reference.c2; Reference.c3]) None
           Reference.w0 (snd run) (Ok (Path "raw"))).
  vm_compute. reflexivity.
Defined.

(** The run of the witness, spelled out: three chunks, three calls, in
    order, [tofile] for the arrays and [write] for the bytes. *)
Example three_chunks_three_calls :
  file_writer Reference.compression Reference.iterate (Path "raw")
    (counting_source [Reference.c1; Reference.c2; Reference.c3]) None Reference.w0 =
  (Ok (Path "raw"),
   {| user := {| pulled := 3; hashes := [1%N] |};
      streams := [ {| s_class := FileLike "BytesIO"; s_calls := []; s_closed := false |};
                   {| s_class := BufferedWriter;
                      s_calls := [CallTofile Reference.c1; CallWrite Reference.c2;
                                  CallTofile Reference.c3];
                      s_closed := false |} ];
      disk := {[ "raw" := 1 ]} |}).
Proof. vm_compute. reflexivity. Qed.

Lemma reference_passes_arrays_through : passes_arrays_through Reference.iterate.
Proof. by intros g _. Qed.

(** C9. [memory_writer] runs the normalized sequence to its end, once, and
    returns its chunks as a list, in order (or raises what the sequence
    raises). From a source of [ndarray] chunks, which the normalizer passes
    through, it returns those very chunks, having pulled each of them once. *)
Theorem memory_writer_materializes {D : Type} (it : iterate_module D)
    (g : gen (heap D) chunk) (cs : list chunk) (h : heap D) :
  passes_arrays_through it →
  Forall (λ data, isinstance_ndarray data = true) cs →
  memory_writer it g h =
    (match failure (iter_data it g) with
     | None => Ok (items (iter_data it g))
     | Some e => Raise e
     end,
     effects (iter_data it g) h) ∧
  memory_writer it (counting_source cs) h =
    (Ok cs, {| pulled := pulled h + length cs; hashes := hashes h |}).
Proof.
  intros Hlaw Harrays. unfold memory_writer. split.
  - apply collect_run.
  - rewrite Hlaw by (by rewrite items_counting_source).
    rewrite collect_run, failure_counting_source, items_counting_source.
    by rewrite effects_counting_source.
Qed.

Lemma memory_writer_materializes_witness :
  memory_writer Reference.iterate
    (failing_source [Reference.c2] (UpstreamError "source failed"))
    {| pulled := 0; hashes := [1%N] |} =
    (Raise (UpstreamError "source failed"), {| pulled := 1; hashes := [1%N] |}) ∧
  memory_writer Reference.iterate (counting_source [Reference.c1; Reference.c3])
    {| pulled := 0; hashes := [1%N] |} =
    (Ok [Reference.c1; Reference.c3], {| pulled := 2; hashes := [1%N] |}).
Proof.
  apply (memory_writer_materializes Reference.iterate
           (failing_source [Reference.c2] (UpstreamError "source failed"))
           [Reference.c1; Reference.c3] {| pulled := 0; hashes := [1%N] |}).
  - exact reference_passes_arrays_through.
  - repeat constructor.
Defined.

(** ** [iter_hash] *)

Section HashTap.
Context {D : Type} (absorb : D → chunk → D).
Implicit Types (h : heap D) (cs : list chunk) (d : D).

Lemma iter_hash_items (g : gen (heap D) chunk) hash :
  items (iter_hash absorb g hash) = items g.
Proof. induction g; simpl; congruence. Qed.

Lemma iter_hash_failure (g : gen (heap D) chunk) hash :
  failure (iter_hash absorb g hash) = failure g.
Proof. induction g; simpl; congruence. Qed.

Lemma absorb_all_cons hash c cs h :
  absorb_all absorb hash (c :: cs) h = absorb_all absorb hash cs (hash_update absorb hash c h).
Proof. done. Qed.

Lemma hash_update_tick hash c h :
  hash_update absorb hash c (tick h) = tick (hash_update absorb hash c h).
Proof. done. Qed.

(** Counting a pull and absorbing a chunk touch different parts of the
    heap. *)
Lemma absorb_all_tick hash cs h :
  hashes (absorb_all absorb hash cs (tick h)) = hashes (absorb_all absorb hash cs h).
Proof.
  revert h; induction cs as [|c cs IH]; intros h; [done|].
  by rewrite !absorb_all_cons, hash_update_tick, IH.
Qed.

Lemma absorb_all_lookup hash cs h d :
  hashes h !! hash = Some d →
  hashes (absorb_all absorb hash cs h) !! hash = Some (fold_left absorb cs d).
Proof.
  revert h d; induction cs as [|c cs IH]; intros h d Hd; [done|].
  rewrite absorb_all_cons; simpl. apply IH. unfold hash_update; simpl.
  by rewrite list_lookup_alter_eq, Hd.
Qed.

(** The other digest objects are left alone. *)
Lemma absorb_all_other hash hash' cs h :
  hash ≠ hash' →
  hashes (absorb_all absorb hash cs h) !! hash' = hashes h !! hash'.
Proof.
  intros Hne. revert h; induction cs as [|c cs IH]; intros h; [done|].
  rewrite absorb_all_cons, IH. unfold hash_update; simpl.
  by rewrite list_lookup_alter_ne.
Qed.

Lemma absorb_all_hashes hash cs h1 h2 :
  hashes h1 = hashes h2 →
  hashes (absorb_all absorb hash cs h1) = hashes (absorb_all absorb hash cs h2).
Proof.
  revert h1 h2; induction cs as [|c cs IH]; intros h1 h2 Heq; [done|].
  rewrite !absorb_all_cons. apply IH. unfold hash_update; simpl. by rewrite Heq.
Qed.

(** One pull from [iter_hash] is one pull from the source followed by the
    update of the digest with the chunk pulled. *)
Lemma iter_hash_next (g : gen (heap D) chunk) hash h :
  next (iter_hash absorb g hash) h =
  match next g h with
  | (Yielded data rest, h') =>
      (Yielded data (iter_hash absorb rest hash), hash_update absorb hash data h')
  | (StopIteration, h') => (StopIteration, h')
  | (Raised e, h') => (Raised e, h')
  end.
Proof. revert h; induction g as [|e|a rest IH|f rest IH]; intros h; simpl; done. Qed.

Lemma next_keeps_hashes (g : gen (heap D) chunk) h :
  keeps_hashes g →
  hashes (snd (next g h)) = hashes h ∧
  match fst (next g h) with
  | Yielded _ rest => keeps_hashes rest
  | _ => True
  end.
Proof.
  revert h; induction g as [|e|a g IH|f g IH]; intros h Hkeep; simpl in *.
  - done.
  - done.
  - done.
  - destruct Hkeep as [Hf Hkeep].
    destruct (IH (f h) Hkeep) as [Heq ?]. by rewrite Heq, Hf.
Qed.

(** For any source that leaves the digests alone: a consumer of [iter_hash]
    that stops after [k] pulls has seen the first [k] chunks of the source
    (all of them if there are fewer), and the digest has absorbed exactly
    what it has seen. *)
Lemma iter_hash_pull_seen hash (k : nat) :
  ∀ (g : gen (heap D) chunk) h seen rest h',
    keeps_hashes g →
    pull k (iter_hash absorb g hash) h = (seen, rest, h') →
    seen = take k (items g) ∧
    hashes h' = hashes (absorb_all absorb hash seen h).
Proof.
  induction k as [|k IH]; intros g h seen rest h' Hkeep Hpull; simpl in *.
  - injection Hpull as <- <- <-. by rewrite take_0.
  - rewrite iter_hash_next in Hpull.
    pose proof (next_items g h) as Hitems.
    destruct (next_keeps_hashes g h Hkeep) as [Hh1 Hkeep1].
    destruct (next g h) as [[data g1| |e] h1]; simpl in *.
    + destruct (pull k (iter_hash absorb g1 hash) _) as [[seen1 rest1] h2] eqn:Hrec.
      injection Hpull as <- <- <-.
      destruct (IH _ _ _ _ _ Hkeep1 Hrec) as (-> & Hdigest).
      rewrite Hitems; simpl. split; [done|].
      rewrite Hdigest. apply absorb_all_hashes.
      unfold hash_update; simpl. by rewrite Hh1.
    + injection Hpull as <- <- <-. by rewrite Hitems.
    + injection Hpull as <- <- <-. by rewrite Hitems.
Qed.

Lemma iter_hash_effects hash cs h :
  effects (iter_hash absorb (counting_source cs) hash) h =
  {| pulled := pulled h + length cs; hashes := hashes (absorb_all absorb hash cs h) |}.
Proof.
  revert h; induction cs as [|c cs IH]; intros h; simpl.
  - destruct h; simpl. f_equal; lia.
  - rewrite IH; simpl. f_equal; [lia|].
    by rewrite hash_update_tick, absorb_all_tick.
Qed.

Lemma iter_hash_pull hash (k : nat) :
  ∀ cs h,
    (k ≤ length cs) →
    pull k (iter_hash absorb (counting_source cs) hash) h =
    (take k cs,
     iter_hash absorb (counting_source (drop k cs)) hash,
     {| pulled := pulled h + k; hashes := hashes (absorb_all absorb hash (take k cs) h) |}).
Proof.
  induction k as [|k IH]; intros cs h Hk.
  - simpl. rewrite take_0, drop_0. destruct h; simpl. do 2 f_equal. lia.
  - destruct cs as [|c cs]; simpl in Hk; [lia|].
    simpl. rewrite IH by lia; simpl. do 2 f_equal; [lia|].
    by rewrite hash_update_tick, absorb_all_tick.
Qed.

End HashTap.

(** C4. [iter_hash] over a source of chunks [cs] yields [cs] itself, and run
    to its end leaves the digest as [hash.update] called on each chunk in
    turn leaves it. A consumer that pulls [k] chunks and stops has received
    the first [k] chunks, only these have been pulled from the source, and
    the digest has absorbed exactly these, in order; the chunks that follow
    are still to come. *)
Theorem iter_hash_transparent {D : Type} (absorb : D → chunk → D)
    (cs : list chunk) (hash k : nat) (h : heap D) (d : D) :
  (k ≤ length cs) →
  hashes h !! hash = Some d →
  items (iter_hash absorb (counting_source cs) hash) = cs ∧
  collect (iter_hash absorb (counting_source cs) hash) h =
    (Ok cs, {| pulled := pulled h + length cs;
               hashes := hashes (absorb_all absorb hash cs h) |}) ∧
  hashes (absorb_all absorb hash cs h) !! hash = Some (fold_left absorb cs d) ∧
  pull k (iter_hash absorb (counting_source cs) hash) h =
    (take k cs,
     iter_hash absorb (counting_source (drop k cs)) hash,
     {| pulled := pulled h + k;
        hashes := hashes (absorb_all absorb hash (take k cs) h) |}) ∧
  hashes (absorb_all absorb hash (take k cs) h) !! hash =
    Some (fold_left absorb (take k cs) d).
Proof.
  intros Hk Hd. split_and!.
  - by rewrite iter_hash_items, items_counting_source.
  - rewrite collect_run, iter_hash_failure, failure_counting_source.
    by rewrite iter_hash_items, items_counting_source, iter_hash_effects.
  - by apply absorb_all_lookup.
  - by apply iter_hash_pull.
  - by apply absorb_all_lookup.
Qed.

Lemma iter_hash_transparent_witness :
  let cs := [Reference.c1; Reference.c2; Reference.c3] in
  let h := {| pulled := 0; hashes := [1%N] |} in
  items (iter_hash Reference.absorb (counting_source cs) 0) = cs ∧
  collect (iter_hash Reference.absorb (counting_source cs) 0) h =
    (Ok cs, {| pulled := 3; hashes := [38037%N] |}) ∧
  [38037%N] !! 0%nat = Some (fold_left Reference.absorb cs 1%N) ∧
  pull 2 (iter_hash Reference.absorb (counting_source cs) 0) h =
    ([Reference.c1; Reference.c2],
     iter_hash Reference.absorb (counting_source [Reference.c3]) 0,
     {| pulled := 2; hashes := [30817%N] |}) ∧
  [30817%N] !! 0%nat = Some (fold_left Reference.absorb [Reference.c1; Reference.c2] 1%N).
Proof.
  intros cs h.
  apply (iter_hash_transparent Reference.absorb cs 0 2 h 1%N).
  - simpl. lia.
  - reflexivity.
Defined.

(** * Further properties of the writers *)

(** ** What [decompressed_filepath] removes *)

Section SplitextShape.
Import PyStr OsPath.

Lemma string_app_nil_r (s : string) : s +:+ "" = s.
Proof.
  induction s as [|a s IH]; [done|].
  by rewrite string_app_cons, IH.
Qed.

Lemma take_drop_string (n : nat) (s : string) :
  PyStr.take n s +:+ PyStr.drop n s = s.
Proof.
  revert s; induction n as [|n IH]; intros [|a s]; simpl; try done.
  by rewrite string_app_cons, IH.
Qed.

Lemma skip_leading_dots_cases (p : string) (dotIndex steps filenameIndex : nat) :
  skip_leading_dots p filenameIndex steps dotIndex = (p, EmptyString) ∨
  skip_leading_dots p filenameIndex steps dotIndex =
    (PyStr.take dotIndex p, PyStr.drop dotIndex p).
Proof.
  revert filenameIndex; induction steps as [|steps IH]; intros f; simpl.
  - by left.
  - destruct (negb _); [by right|apply IH].
Qed.

(** Where [rfind] points, the character stands, and does not occur again. *)
Lemma rfind_from_last c (s : string) (i acc : Z) :
  (acc < i)%Z →
  (rfind_from c s i acc = acc ∧ contains c s = false) ∨
  ((i ≤ rfind_from c s i acc)%Z ∧
   ∃ t, PyStr.drop (Z.to_nat (rfind_from c s i acc - i)) s = String c t ∧
        contains c t = false).
Proof.
  revert i acc; induction s as [|a s IH]; intros i acc Hacc; simpl.
  - by left.
  - destruct (Ascii.eqb_spec a c) as [->|Hne]; simpl.
    + destruct (IH (i + 1)%Z i ltac:(lia)) as [[Hr Habs]|[Hr (t & Ht & Habs)]].
      * right. rewrite Hr. split; [lia|]. exists s.
        by replace (Z.to_nat (i - i)) with 0%nat by lia.
      * right. split; [lia|]. exists t. split; [|done].
        replace (Z.to_nat (rfind_from c s (i + 1) i - i))
          with (S (Z.to_nat (rfind_from c s (i + 1) i - (i + 1)))) by lia.
        done.
    + destruct (IH (i + 1)%Z acc ltac:(lia)) as [[Hr Habs]|[Hr (t & Ht & Habs)]].
      * by left.
      * right. split; [lia|]. exists t. split; [|done].
        replace (Z.to_nat (rfind_from c s (i + 1) acc - i))
          with (S (Z.to_nat (rfind_from c s (i + 1) acc - (i + 1)))) by lia.
        done.
Qed.

(** Past the index [rfind] returns, the character does not occur. *)
Lemma rfind_from_none_after c (s : string) :
  ∀ (i acc : Z) (n : nat),
    (acc < i)%Z →
    (rfind_from c s i acc < i + Z.of_nat n)%Z →
    contains c (PyStr.drop n s) = false.
Proof.
  induction s as [|a s IH]; intros i acc n Hacc Hr; simpl in *.
  - by destruct n.
  - destruct n as [|n]; simpl.
    + destruct (Ascii.eqb_spec a c) as [->|Hne]; simpl.
      * pose proof (rfind_from_range c s (i + 1) i ltac:(lia)). lia.
      * apply (IH (i + 1)%Z acc 0%nat); simpl; lia.
    + apply (IH (i + 1)%Z (if Ascii.eqb a c then i else acc) n).
      * destruct (Ascii.eqb a c); lia.
      * lia.
Qed.

(** [os.path.splitext]: the two parts make up the path, and the extension
    is empty or one dot followed by characters that are neither dots nor
    separators. *)
Lemma splitext_shape (p : string) :
  ∃ name ext,
    splitext p = (name, ext) ∧
    p = name +:+ ext ∧
    contains sep ext = false ∧
    (ext = "" ∨ ∃ e, ext = String extsep e ∧ contains extsep e = false).
Proof.
  unfold splitext.
  destruct (Z.ltb_spec (rfind sep p) (rfind extsep p)) as [Hlt|Hge].
  - pose proof (rfind_from_range sep p 0 (-1) ltac:(lia)) as Hsep.
    fold (rfind sep p) in Hsep.
    destruct (skip_leading_dots_cases p (Z.to_nat (rfind extsep p))
                (Z.to_nat (rfind extsep p - (rfind sep p + 1)))
                (Z.to_nat (rfind sep p + 1))) as [-> | ->].
    + exists p, "". split_and!; [done|by rewrite string_app_nil_r|done|by left].
    + eexists _, _. split_and!; [done|by rewrite take_drop_string| |].
      * apply (rfind_from_none_after sep p 0 (-1)); [lia|].
        fold (rfind sep p). lia.
      * right.
        destruct (rfind_from_last extsep p 0 (-1) ltac:(lia))
          as [[Hr _]|[_ (t & Ht & Habs)]].
        -- fold (rfind extsep p) in Hr. lia.
        -- fold (rfind extsep p) in Ht. rewrite Z.sub_0_r in Ht. eauto.
  - exists p, "". split_and!; [done|by rewrite string_app_nil_r|done|by left].
Qed.

End SplitextShape.

(** X1. [decompressed_filepath] returns a prefix of the path it is given.
    What it leaves out holds no separator, so the directory stays as it is,
    and is either nothing or one dot and one key of [FILE_CLASSES] without a
    dot: at most one extension goes, and only a registered one. *)
Theorem decompressed_filepath_removes_one_key {D : Type}
    (cm : compression_module D) (filepath : string) :
  ∃ removed,
    filepath = decompressed_filepath cm filepath +:+ removed ∧
    PyStr.contains OsPath.sep removed = false ∧
    (removed = "" ∨
     ∃ key, removed = "." +:+ key ∧
            PyStr.contains OsPath.extsep key = false ∧
            key ∈ FILE_CLASSES cm).
Proof.
  destruct (splitext_shape filepath) as (name & ext & Hsplit & Hjoin & Hsep & Hext).
  unfold decompressed_filepath. rewrite Hsplit.
  destruct (bool_decide_reflect (PyStr.lstrip "." ext ∈ FILE_CLASSES cm)) as [Hkey|_].
  - exists ext. split_and!; [done|done|].
    destruct Hext as [->|(e & -> & Hdots)]; [by left|right].
    exists e. split_and!; [done|done|].
    simpl in Hkey. by rewrite (lstrip_absent _ e) in Hkey.
  - exists "". split_and!; [by rewrite string_app_nil_r|done|by left].
Qed.

(** X2. Of a path with several extensions only the last is looked at: it is
    removed when it is a key of [FILE_CLASSES], and the path is returned
    whole when it is not, whatever the extensions before it are. *)
Theorem decompressed_filepath_last_extension_only {D : Type}
    (cm : compression_module D) (dir rest ext : string) (a : ascii) :
  a ≠ OsPath.extsep → a ≠ OsPath.sep →
  PyStr.contains OsPath.sep rest = false →
  PyStr.contains OsPath.extsep ext = false →
  PyStr.contains OsPath.sep ext = false →
  decompressed_filepath cm ((dir +:+ String a rest) +:+ "." +:+ ext) =
  if bool_decide (ext ∈ FILE_CLASSES cm)
  then dir +:+ String a rest
  else (dir +:+ String a rest) +:+ "." +:+ ext.
Proof.
  intros Hdot Hsep Hrest Hext Hext'.
  unfold decompressed_filepath.
  rewrite splitext_append_ext by done.
  rewrite string_app_cons, string_app_nil; simpl.
  by rewrite (lstrip_absent _ ext).
Qed.

Lemma decompressed_filepath_last_extension_only_witness :
  decompressed_filepath Reference.compression "data/log.xz.gz" = "data/log.xz".
Proof.
  apply (decompressed_filepath_last_extension_only Reference.compression
           "data/" "og.xz" "gz" "l"%char).
  - discriminate.
  - discriminate.
  - reflexivity.
  - reflexivity.
  - reflexivity.
Defined.

Lemma final_path_idempotent_witness :
  final_path Reference.compression
    (final_path Reference.compression "runs/out.csv" (Some "gz")) (Some "gz") =
  final_path Reference.compression "runs/out.csv" (Some "gz").
Proof.
  apply (final_path_idempotent Reference.compression "runs/out.csv" "gz"
           "runs/" "ut" "o"%char).
  - reflexivity.
  - vm_compute. reflexivity.
  - reflexivity.
  - reflexivity.
  - vm_compute. reflexivity.
  - discriminate.
  - discriminate.
  - reflexivity.
Defined.

(** ** Outcomes of [file_writer] *)

Section Outcomes.
Context {D : Type} (cm : compression_module D) (it : iterate_module D).
Implicit Types (w : world D) (g : gen (heap D) chunk) (c : option string).

(** The loop pulls a chunk only to write it: when it stops, having carried
    out [k] calls, the source is where [k + 1] pulls leave it. *)
Lemma for_each_calls_heap fileobj (mk : chunk → call) g :
  ∀ w res w',
    for_each user set_user g (λ data, stream_call fileobj (mk data)) w = (res, w') →
    ∃ k : nat,
      k ≤ length (items g) ∧
      streams w' = alter (append_calls (mk <$> take k (items g))) fileobj (streams w) ∧
      user w' = snd (pull (S k) g (user w)).
Proof.
  induction g as [|e|a rest IH|f rest IH]; intros w res w' Hrun; simpl in *.
  - injection Hrun as <- <-. exists 0. split_and!; [done| |done].
    by rewrite list_alter_id by apply append_calls_nil.
  - injection Hrun as <- <-. exists 0. split_and!; [done| |done].
    by rewrite list_alter_id by apply append_calls_nil.
  - unfold mbind, M_bind in Hrun.
    destruct (stream_call_cases fileobj (mk a) w) as [Hok|[e Herr]].
    + rewrite Hok in Hrun. apply IH in Hrun as (k & Hk & Hst & Huser).
      exists (S k). split_and!; [simpl; lia| |].
      * rewrite Hst. unfold log_call; simpl. rewrite list_alter_alter_eq.
        apply list_alter_ext; [|done]. intros s _; simpl.
        by rewrite append_calls_app.
      * rewrite Huser. simpl.
        by destruct (next rest (user w)) as [[b rest'| |e] h'];
          [destruct (pull k rest' h') as [[l g'] h'']| |].
    + rewrite Herr in Hrun. injection Hrun as <- <-. exists 0.
      split_and!; [simpl; lia| |done].
      by rewrite list_alter_id by apply append_calls_nil.
  - apply IH in Hrun as (k & Hk & Hst & Huser).
    exists k. split_and!; done.
Qed.

End Outcomes.

(** X4. No cleanup: once the stream of a path destination has been opened,
    the file stays in the directory however the call ends, so that a second
    call for the same path and codec is refused with [FileExistsError], also
    after a failure in the middle of the sequence, and changes nothing. *)
Theorem failed_write_blocks_retry {D : Type}
    (cm : compression_module D) (it : iterate_module D)
    (requested : string) (c : option string) (cls : stream_class)
    (g g' : gen (heap D) chunk) (w w1 : world D) (res : result filelike) :
  COMPRESSION_CLASSES cm !! c = Some cls →
  disk w !! final_path cm requested c = None →
  file_writer cm it (Path requested) g c w = (res, w1) →
  file_writer cm it (Path requested) g' c w1 =
  (Raise (FileExistsError (final_path cm requested c)), w1).
Proof.
  intros Hcls Hnew Hfirst.
  destruct (file_writer_path_fresh cm it requested g c w cls Hcls Hnew)
    as (res0 & w0 & k & Hrun & _ & _ & Hdisk & _).
  rewrite Hfirst in Hrun. injection Hrun as <- <-.
  apply (file_writer_path_exists cm it requested g' c w1 cls Hcls).
  rewrite Hdisk, lookup_insert_eq. by eexists.
Qed.

Lemma failed_write_blocks_retry_witness :
  let first := file_writer Reference.compression Reference.iterate (Path "out")
                 (failing_source [Reference.c1] (UpstreamError "source failed"))
                 (Some "gz") Reference.w0 in
  file_writer Reference.compression Reference.iterate (Path "out")
    (counting_source [Reference.c1]) (Some "gz") (snd first) =
  (Raise (FileExistsError "out.gz"), snd first).
Proof.
  intros first.
  apply (failed_write_blocks_retry Reference.compression Reference.iterate
           "out" (Some "gz") (CodecFile "gz")
           (failing_source [Reference.c1] (UpstreamError "source failed"))
           (counting_source [Reference.c1]) Reference.w0 (snd first)
           (Raise (UpstreamError "source failed"))).
  - vm_compute. reflexivity.
  - vm_compute. reflexivity.
  - vm_compute. reflexivity.
Defined.

(** X6. An empty sequence written to a handle never calls the handle: the
    call returns it whatever state it is in, closed or not a stream at all,
    and only the source has run. *)
Theorem empty_sequence_spares_handle {D : Type}
    (cm : compression_module D) (it : iterate_module D)
    (fileobj : nat) (c : option string) (g : gen (heap D) chunk) (w : world D) :
  items (handle_pipeline cm it g c) = [] →
  failure (handle_pipeline cm it g c) = None →
  file_writer cm it (Handle fileobj) g c w =
  (Ok (Handle fileobj), set_user (effects (handle_pipeline cm it g c) (user w)) w).
Proof.
  intros Hitems Hfail.
  destruct (file_writer_handle_run cm it fileobj g c w)
    as (res & w' & k & Hrun & Hk & Hst & Hdisk & Hfin & Herr).
  rewrite Hitems in *. simpl in Hk.
  assert (k = 0) as -> by lia. simpl in Hst.
  rewrite list_alter_id in Hst by apply append_calls_nil.
  destruct res as [v|e].
  - destruct (Hfin v eq_refl) as (-> & _ & _ & Huser).
    rewrite Hrun. f_equal. destruct w'; unfold set_user; simpl in *. by subst.
  - destruct (Herr e eq_refl) as [Hf|Hlt]; [congruence|simpl in Hlt; lia].
Qed.

Lemma empty_sequence_spares_handle_witness :
  let closed := snd (stream_close 0 Reference.w0) in
  file_writer Reference.compression Reference.iterate (Handle 0)
    (counting_source []) (Some "gz") closed =
  (Ok (Handle 0), closed).
Proof.
  intros closed.
  apply (empty_sequence_spares_handle Reference.compression Reference.iterate
           0 (Some "gz") (counting_source []) closed).
  - reflexivity.
  - reflexivity.
Defined.

(** X7. A handle destination is only ever written to. Whatever the outcome,
    its stream keeps its class and its open state and has carried out
    [write] calls only, for a prefix of the sequence: no [tofile], even for
    an [ndarray] on a [BufferedWriter], no [flush], no [close]. No stream is
    created, no other stream is touched, and the directory is as before. *)
Theorem handle_only_written {D : Type}
    (cm : compression_module D) (it : iterate_module D)
    (fileobj : nat) (c : option string) (g : gen (heap D) chunk)
    (w w' : world D) (res : result filelike) (s : stream) :
  file_writer cm it (Handle fileobj) g c w = (res, w') →
  streams w !! fileobj = Some s →
  (∃ k : nat,
     streams w' !! fileobj =
     Some {| s_class := s_class s;
             s_calls := s_calls s ++
                        (CallWrite <$> take k (items (handle_pipeline cm it g c)));
             s_closed := s_closed s |}) ∧
  length (streams w') = length (streams w) ∧
  (∀ r : nat, r ≠ fileobj → streams w' !! r = streams w !! r) ∧
  disk w' = disk w.
Proof.
  intros Hrun Hs.
  destruct (file_writer_handle_run cm it fileobj g c w)
    as (res0 & w0 & k & Hrun0 & _ & Hst & Hdisk & _).
  rewrite Hrun in Hrun0. injection Hrun0 as <- <-.
  split_and!.
  - exists k. by rewrite Hst, list_lookup_alter_eq, Hs.
  - by rewrite Hst, length_alter.
  - intros r Hr. by rewrite Hst, list_lookup_alter_ne.
  - done.
Qed.

Lemma handle_only_written_witness :
  let opened := snd (open_stream BufferedWriter "raw" ModeX Reference.w0) in
  let run := file_writer Reference.compression Reference.iterate (Handle 1)
               (counting_source [Reference.c1; PyObject "None"; Reference.c3]) None
               opened in
  (∃ k : nat,
     streams (snd run) !! 1%nat =
     Some {| s_class := BufferedWriter;
             s_calls := [] ++ (CallWrite <$>
                                 take k [Bytes [Byte.x01; Byte.x02]; PyObject "None";
                                         Bytes [Byte.x04]]);
             s_closed := false |}) ∧
  length (streams (snd run)) = 2%nat ∧
  (∀ r : nat, r ≠ 1%nat → streams (snd run) !! r = streams opened !! r) ∧
  disk (snd run) = disk opened.
Proof.
  intros opened run.
  apply (handle_only_written Reference.compression Reference.iterate 1 None
           (counting_source [Reference.c1; PyObject "None"; Reference.c3])
           opened (snd run) (fst run)
           {| s_class := BufferedWriter; s_calls := []; s_closed := false |}).
  - vm_compute. reflexivity.
  - vm_compute. reflexivity.
Defined.

(** X8. The writer holds one chunk at a time. Whatever the outcome, when the
    destination stream has carried out [k] calls for the first [k] chunks of
    the sequence it is written from, the source is exactly where [k + 1]
    pulls leave it: the chunk that failed to be written, or the end or the
    failure of the sequence that the last pull met. Nothing beyond it has
    been pulled. *)
Theorem writer_never_pulls_ahead {D : Type}
    (cm : compression_module D) (it : iterate_module D)
    (dest : filelike) (c : option string) (cls : stream_class)
    (g : gen (heap D) chunk) (w w' : world D) (res : result filelike) :
  file_writer cm it dest g c w = (res, w') →
  match dest with
  | Path requested =>
      COMPRESSION_CLASSES cm !! c = Some cls ∧
      disk w !! final_path cm requested c = None
  | Handle _ => True
  end →
  let written :=
    match dest with
    | Path _ => iter_data it g
    | Handle _ => handle_pipeline cm it g c
    end in
  ∃ k : nat,
    k ≤ length (items written) ∧
    user w' = snd (pull (S k) written (user w)) ∧
    streams w' =
      match dest with
      | Path _ =>
          streams w ++
          [fresh_stream cls
             (sink_call (isinstance_BufferedWriter cls) <$> take k (items written))]
      | Handle fileobj =>
          alter (append_calls (CallWrite <$> take k (items written))) fileobj (streams w)
      end.
Proof.
  intros Hrun Hdest. destruct dest as [requested|fileobj]; simpl.
  - destruct Hdest as [Hcls Hnew].
    unfold file_writer in Hrun. unfold mbind at 1, M_bind at 1 in Hrun.
    rewrite (open_writable_file_final cm _ _ _ cls), Hnew in Hrun by done.
    unfold mbind, M_bind in Hrun. rewrite for_each_write_data in Hrun.
    unfold isinstance_stream at 1 in Hrun; simpl in Hrun.
    rewrite list_lookup_middle in Hrun by done. simpl in Hrun.
    destruct (for_each user set_user (iter_data it g) _ _) as [res0 w0] eqn:Hloop.
    apply for_each_calls_heap in Hloop as (k & Hk & Hst & Huser).
    assert (w' = w0) as -> by (by destruct res0; injection Hrun).
    exists k. split_and!; [done|done|].
    rewrite Hst; simpl.
    by rewrite <- (Nat.add_0_r (length (streams w))), alter_app_r.
  - unfold file_writer in Hrun. fold (handle_pipeline cm it g c) in Hrun.
    unfold mbind, M_bind in Hrun. rewrite for_each_stream_write in Hrun.
    destruct (for_each user set_user _ _ w) as [res0 w0] eqn:Hloop.
    apply for_each_calls_heap in Hloop as (k & Hk & Hst & Huser).
    assert (w' = w0) as -> by (by destruct res0; injection Hrun).
    by exists k.
Qed.

Lemma writer_never_pulls_ahead_witness :
  let source := counting_source [Reference.c1; PyObject "None"; Reference.c3] in
  let run := file_writer Reference.compression Reference.iterate (Path "raw")
               source None Reference.w0 in
  ∃ k : nat,
    k ≤ 3 ∧
    user (snd run) = snd (pull (S k) source (user Reference.w0)) ∧
    streams (snd run) =
      streams Reference.w0 ++
      [fresh_stream BufferedWriter
         (sink_call true <$> take k [Reference.c1; PyObject "None"; Reference.c3])].
Proof.
  intros source run.
  apply (writer_never_pulls_ahead Reference.compression Reference.iterate
           (Path "raw") None BufferedWriter source Reference.w0 (snd run) (fst run)).
  - vm_compute. reflexivity.
  - split; vm_compute; reflexivity.
Defined.

(** The run of the witness above: the second chunk is refused, one chunk has
    been written and two have been pulled; the third is still in the
    source. *)
Example refused_chunk_stops_the_writer :
  let run := file_writer Reference.compression Reference.iterate (Path "raw")
               (counting_source [Reference.c1; PyObject "None"; Reference.c3])
               None Reference.w0 in
  fst run = Raise (TypeError "a bytes-like object is required") ∧
  received 1 (snd run) = [Reference.c1] ∧
  pulled (user (snd run)) = 2.
Proof. vm_compute. done. Qed.

(** ** More on [iter_hash] *)

Section HashTapRuns.
Context {D : Type}.
Implicit Types (absorb : D → chunk → D) (g : gen (heap D) chunk) (h : heap D).

Lemma absorb_all_length absorb hash (cs : list chunk) h :
  length (hashes (absorb_all absorb hash cs h)) = length (hashes h).
Proof.
  revert h; induction cs as [|c cs IH]; intros h; [done|].
  rewrite absorb_all_cons, IH. unfold hash_update; simpl. apply length_alter.
Qed.

(** Run to its end, or to the failure of its source, the tap has absorbed
    the chunks the source yielded. *)
Lemma iter_hash_run_hashes absorb hash g :
  ∀ h,
    keeps_hashes g →
    hashes (effects (iter_hash absorb g hash) h) =
    hashes (absorb_all absorb hash (items g) h).
Proof.
  induction g as [|e|a rest IH|f rest IH]; intros h Hkeep; simpl in *.
  - done.
  - done.
  - by rewrite IH.
  - destruct Hkeep as [Hf Hkeep]. rewrite IH by done.
    by apply absorb_all_hashes.
Qed.

(** Two taps, one over the other, on two digest objects. *)
Lemma nested_taps_run absorb1 absorb2 (hash1 hash2 : nat) g :
  hash1 ≠ hash2 →
  ∀ h d1 d2,
    keeps_hashes g →
    hashes h !! hash1 = Some d1 →
    hashes h !! hash2 = Some d2 →
    let h' := effects (iter_hash absorb2 (iter_hash absorb1 g hash1) hash2) h in
    hashes h' !! hash1 = Some (fold_left absorb1 (items g) d1) ∧
    hashes h' !! hash2 = Some (fold_left absorb2 (items g) d2).
Proof.
  intros Hne.
  induction g as [|e|a rest IH|f rest IH]; intros h d1 d2 Hkeep H1 H2; simpl in *.
  - done.
  - done.
  - apply IH; [done| |]; unfold hash_update; simpl.
    + by rewrite list_lookup_alter_ne, list_lookup_alter_eq, H1.
    + by rewrite list_lookup_alter_eq, list_lookup_alter_ne, H2.
  - destruct Hkeep as [Hf Hkeep]. apply IH; [done| |]; by rewrite Hf.
Qed.

(** Two taps, one over the other, on the same digest object. *)
Lemma doubled_tap_run absorb (hash : nat) g :
  ∀ h d,
    keeps_hashes g →
    hashes h !! hash = Some d →
    hashes (effects (iter_hash absorb (iter_hash absorb g hash) hash) h) !! hash =
    Some (fold_left (λ d' data, absorb (absorb d' data) data) (items g) d).
Proof.
  induction g as [|e|a rest IH|f rest IH]; intros h d Hkeep Hd; simpl in *.
  - done.
  - done.
  - apply IH; [done|]. unfold hash_update; simpl.
    by rewrite !list_lookup_alter_eq, Hd.
  - destruct Hkeep as [Hf Hkeep]. apply IH; [done|]. by rewrite Hf.
Qed.

End HashTapRuns.

(** X9. For any source that does not itself touch the digests, a consumer
    of [iter_hash] that stops after [k] pulls has seen the first [k] chunks of
    the source (all of them if there are fewer, or if the source fails
    before), and the digest holds exactly the chunks seen, absorbed in order.
    The other digest objects are as they were and none has appeared. *)
Theorem tap_reflects_what_was_seen {D : Type} (absorb : D → chunk → D)
    (g rest : gen (heap D) chunk) (hash k : nat) (h h' : heap D)
    (seen : list chunk) (d : D) :
  keeps_hashes g →
  hashes h !! hash = Some d →
  pull k (iter_hash absorb g hash) h = (seen, rest, h') →
  seen = take k (items g) ∧
  hashes h' !! hash = Some (fold_left absorb seen d) ∧
  (∀ other : nat, other ≠ hash → hashes h' !! other = hashes h !! other) ∧
  length (hashes h') = length (hashes h).
Proof.
  intros Hkeep Hd Hpull.
  destruct (iter_hash_pull_seen absorb hash k g h seen rest h' Hkeep Hpull)
    as [Hseen Hdigest].
  split_and!.
  - done.
  - rewrite Hdigest. by apply absorb_all_lookup.
  - intros other Hother. rewrite Hdigest. by apply absorb_all_other.
  - rewrite Hdigest. apply absorb_all_length.
Qed.

Lemma tap_reflects_what_was_seen_witness :
  let source := failing_source [Reference.c1; Reference.c2] (UpstreamError "source failed") in
  let h := {| pulled := 0; hashes := [1%N; 7%N] |} in
  let run := pull 5 (iter_hash Reference.absorb source 0) h in
  fst (fst run) = take 5 [Reference.c1; Reference.c2] ∧
  hashes (snd run) !! 0%nat = Some (fold_left Reference.absorb (fst (fst run)) 1%N) ∧
  (∀ other : nat, other ≠ 0%nat → hashes (snd run) !! other = hashes h !! other) ∧
  length (hashes (snd run)) = 2%nat.
Proof.
  intros source h run.
  apply (tap_reflects_what_was_seen Reference.absorb source (snd (fst run)) 0 5 h
           (snd run) (fst (fst run)) 1%N).
  - simpl. repeat split.
  - reflexivity.
  - vm_compute. reflexivity.
Defined.

(** X10. The tap is transparent to [list(...)], failures included: collecting
    through [iter_hash] gives the list, or raises the exception, that
    collecting the source gives; either way the digest has then absorbed, in
    order, every chunk the source yielded, those before a failure too. *)
Theorem tap_passes_failure_through {D : Type} (absorb : D → chunk → D)
    (g : gen (heap D) chunk) (hash : nat) (h : heap D) (d : D) :
  keeps_hashes g →
  hashes h !! hash = Some d →
  fst (collect (iter_hash absorb g hash) h) = fst (collect g h) ∧
  hashes (snd (collect (iter_hash absorb g hash) h)) !! hash =
    Some (fold_left absorb (items g) d).
Proof.
  intros Hkeep Hd. rewrite !collect_run; simpl.
  rewrite iter_hash_failure, iter_hash_items. split; [done|].
  rewrite iter_hash_run_hashes by done. by apply absorb_all_lookup.
Qed.

Lemma tap_passes_failure_through_witness :
  let source := failing_source [Reference.c1; Reference.c2] (UpstreamError "source failed") in
  let h := {| pulled := 0; hashes := [1%N] |} in
  fst (collect (iter_hash Reference.absorb source 0) h) = fst (collect source h) ∧
  hashes (snd (collect (iter_hash Reference.absorb source 0) h)) !! 0%nat =
    Some (fold_left Reference.absorb [Reference.c1; Reference.c2] 1%N).
Proof.
  intros source h.
  apply (tap_passes_failure_through Reference.absorb source 0 h 1%N).
  - simpl. repeat split.
  - reflexivity.
Defined.

(** X11. Taps compose: one [iter_hash] over another, each with its own
    digest object (and its own way of absorbing), yields the chunks of the
    source and leaves in each digest what that tap alone would leave. *)
Theorem nested_taps_independent {D : Type} (absorb1 absorb2 : D → chunk → D)
    (g : gen (heap D) chunk) (hash1 hash2 : nat) (h : heap D) (d1 d2 : D) :
  hash1 ≠ hash2 →
  keeps_hashes g →
  hashes h !! hash1 = Some d1 →
  hashes h !! hash2 = Some d2 →
  let tapped := iter_hash absorb2 (iter_hash absorb1 g hash1) hash2 in
  fst (collect tapped h) = fst (collect g h) ∧
  hashes (snd (collect tapped h)) !! hash1 = Some (fold_left absorb1 (items g) d1) ∧
  hashes (snd (collect tapped h)) !! hash2 = Some (fold_left absorb2 (items g) d2).
Proof.
  intros Hne Hkeep H1 H2 tapped. unfold tapped. rewrite !collect_run; simpl.
  rewrite !iter_hash_failure, !iter_hash_items. split; [done|].
  by apply nested_taps_run.
Qed.

Lemma nested_taps_independent_witness :
  let cs := [Reference.c1; Reference.c2] in
  let h := {| pulled := 0; hashes := [1%N; 7%N] |} in
  let tapped := iter_hash (λ d _, (d + 1)%N)
                  (iter_hash Reference.absorb (counting_source cs) 0) 1 in
  fst (collect tapped h) = fst (collect (counting_source cs) h) ∧
  hashes (snd (collect tapped h)) !! 0%nat = Some (fold_left Reference.absorb cs 1%N) ∧
  hashes (snd (collect tapped h)) !! 1%nat = Some 9%N.
Proof.
  intros cs h tapped.
  apply (nested_taps_independent Reference.absorb (λ d _, (d + 1)%N)
           (counting_source cs) 0 1 h 1%N 7%N).
  - discriminate.
  - simpl. repeat split.
  - reflexivity.
  - reflexivity.
Defined.

(** X12. The same digest object tapped twice absorbs every chunk twice, the
    two copies next to each other: nesting [iter_hash] on one digest does not
    give the digest of the sequence. *)
Theorem doubled_tap_absorbs_twice {D : Type} (absorb : D → chunk → D)
    (g : gen (heap D) chunk) (hash : nat) (h : heap D) (d : D) :
  keeps_hashes g →
  hashes h !! hash = Some d →
  hashes (snd (collect (iter_hash absorb (iter_hash absorb g hash) hash) h)) !! hash =
  Some (fold_left (λ d' data, absorb (absorb d' data) data) (items g) d).
Proof.
  intros Hkeep Hd. rewrite collect_run; simpl. by apply doubled_tap_run.
Qed.

Lemma doubled_tap_absorbs_twice_witness :
  let cs := [Reference.c1; Reference.c2] in
  let h := {| pulled := 0; hashes := [1%N] |} in
  hashes (snd (collect (iter_hash Reference.absorb
                          (iter_hash Reference.absorb (counting_source cs) 0) 0) h))
    !! 0%nat =
  Some (fold_left (λ d' data, Reference.absorb (Reference.absorb d' data) data) cs 1%N).
Proof.
  intros cs h.
  apply (doubled_tap_absorbs_twice Reference.absorb (counting_source cs) 0 h 1%N).
  - simpl. repeat split.
  - reflexivity.
Defined.
